(** * eslint-check: a shallow embedding of [src/index.js]

    The action opens a check run, asks the platform which files a pull
    request touches, lints the ones with a lintable extension, turns the
    engine's diagnostics into check annotations and completes the check run.

    JavaScript strings are sequences of UTF-16 code units; they are modelled
    as [list N], one number per code unit, so that [length], [substring] and
    [charCodeAt] count what the engine counts.  Values that may be
    [undefined] or [null] are options. *)

From stdpp Require Import base list strings pretty.
From Stdlib Require Import ZArith NArith Ascii Lia.

#[local] Open Scope Z_scope.

(** ** JavaScript strings *)

Abbreviation jsstring := (list N).

(** A literal: the code units of an ASCII string. *)
Definition js (s : string) : jsstring :=
  N_of_ascii <$> String.list_ascii_of_string s.

(** [String(n)] for an integral number. *)
Definition Number_toString (n : Z) : jsstring := js (pretty n).

(** Interpolation [${v}] of a value that may be [undefined]. *)
Definition interp_undefined (v : option jsstring) : jsstring :=
  match v with Some s => s | None => js "undefined" end.

(** Interpolation [${v}] of a value that may be [null]. *)
Definition interp_null (v : option jsstring) : jsstring :=
  match v with Some s => s | None => js "null" end.

(** Interpolation [${v}] of a value that may be absent ([undefined], the
    outer [None]) or [null] (the inner [None]). *)
Definition interp_nullish (v : option (option jsstring)) : jsstring :=
  match v with Some v' => interp_null v' | None => js "undefined" end.

(** [s.charCodeAt(i)]; [None] stands for [NaN], out of range. *)
Definition charCodeAt (s : jsstring) (i : nat) : option N := s !! i.

(** [s.substring(start)] for a start that is not negative: the start is
    clamped to the length. *)
Definition substring (s : jsstring) (start : nat) : jsstring := drop start s.

(** [s.slice(a, b)] for [0 <= a] and [0 <= b]. *)
Definition slice (s : jsstring) (a b : Z) : jsstring :=
  take (Z.to_nat (b - a)) (drop (Z.to_nat a) s).

(** [parts.join(sep)]. *)
Fixpoint join (sep : jsstring) (parts : list jsstring) : jsstring :=
  match parts with
  | [] => []
  | [p] => p
  | p :: rest => p ++ sep ++ join sep rest
  end.

(** ** [extname] of Node's [path] module (POSIX flavour)

    [index.js] imports [extname] from the platform library.  The definition
    follows the library's loop: the path is scanned from its last code unit
    to its first, and the scan stops at the first separator found after the
    trailing ones.

    <<
    for (let i = path.length - 1; i >= 0; --i) {
      const code = path.charCodeAt(i);
      if (code === CHAR_FORWARD_SLASH) {
        if (!matchedSlash) { startPart = i + 1; break; }
        continue;
      }
      if (end === -1) { matchedSlash = false; end = i + 1; }
      if (code === CHAR_DOT) {
        if (startDot === -1) startDot = i;
        else if (preDotState !== 1) preDotState = 1;
      } else if (startDot !== -1) {
        preDotState = -1;
      }
    }
    if (startDot === -1 || end === -1 || preDotState === 0 ||
        (preDotState === 1 && startDot === end - 1 &&
         startDot === startPart + 1))
      return the empty string;
    return path.slice(startDot, end);
    >> *)

Definition CHAR_FORWARD_SLASH : N := 47.
Definition CHAR_DOT : N := 46.

Record ext_scan := mk_ext_scan {
  startDot : Z;
  startPart : Z;
  end_ : Z;
  matchedSlash : bool;
  preDotState : Z
}.

Definition ext_scan_init : ext_scan :=
  {| startDot := -1; startPart := 0; end_ := -1;
     matchedSlash := true; preDotState := 0 |}.

Definition code_is (code : option N) (c : N) : bool :=
  bool_decide (code = Some c).

(** One iteration at index [i]; [inl] is [break], [inr] goes on to [i - 1]. *)
Definition extname_step (path : jsstring) (i : nat) (st : ext_scan)
  : ext_scan + ext_scan :=
  let code := charCodeAt path i in
  if code_is code CHAR_FORWARD_SLASH then
    if negb (matchedSlash st) then
      inl {| startDot := startDot st; startPart := Z.of_nat i + 1;
             end_ := end_ st; matchedSlash := matchedSlash st;
             preDotState := preDotState st |}
    else inr st
  else
    let st1 :=
      if end_ st =? -1 then
        {| startDot := startDot st; startPart := startPart st;
           end_ := Z.of_nat i + 1; matchedSlash := false;
           preDotState := preDotState st |}
      else st in
    if code_is code CHAR_DOT then
      if startDot st1 =? -1 then
        inr {| startDot := Z.of_nat i; startPart := startPart st1;
               end_ := end_ st1; matchedSlash := matchedSlash st1;
               preDotState := preDotState st1 |}
      else if negb (preDotState st1 =? 1) then
        inr {| startDot := startDot st1; startPart := startPart st1;
               end_ := end_ st1; matchedSlash := matchedSlash st1;
               preDotState := 1 |}
      else inr st1
    else if negb (startDot st1 =? -1) then
      inr {| startDot := startDot st1; startPart := startPart st1;
             end_ := end_ st1; matchedSlash := matchedSlash st1;
             preDotState := -1 |}
    else inr st1.

(** [for (let i = n - 1; i >= 0; --i)]. *)
Fixpoint extname_loop (path : jsstring) (n : nat) (st : ext_scan) : ext_scan :=
  match n with
  | O => st
  | S i =>
    match extname_step path i st with
    | inl st' => st'
    | inr st' => extname_loop path i st'
    end
  end.

Definition extname (path : jsstring) : jsstring :=
  let st := extname_loop path (length path) ext_scan_init in
  if (startDot st =? -1) || (end_ st =? -1) || (preDotState st =? 0)
     || ((preDotState st =? 1) && (startDot st =? end_ st - 1)
         && (startDot st =? startPart st + 1))
  then []
  else slice path (startDot st) (end_ st).

(** ** The lint target filter, lines 184-193 *)

Record file := { path : jsstring }.

(** The [Set] keeps insertion order, which [join] in the notice shows. *)
Definition EXTENSIONS_TO_LINT : list jsstring :=
  [js ".mjs"; js ".js"; js ".ts"; js ".jsx"; js ".tsx"].

(** [set.has(x)]: strings are compared by content. *)
Definition Set_has (set : list jsstring) (x : jsstring) : bool :=
  bool_decide (x ∈ set).

Definition filesToLint (files : list file) : list jsstring :=
  List.map path
    (List.filter (fun f => Set_has EXTENSIONS_TO_LINT (extname (path f))) files).

(** ** Data of the lint engine and of the check-run API *)

(** A message of the engine.  Its [ruleId] is the id of a rule
    ([Some (Some id)]), [null] for an error of the parser ([Some None]), or
    absent, as in the warning about an ignored file ([None]); [line] is
    absent in that warning too. *)
Record lint_message := {
  line : option Z;
  severity : Z;
  ruleId : option (option jsstring);
  message : jsstring
}.

Record lint_result := {
  filePath : jsstring;
  messages : list lint_message
}.

Record lint_report := {
  results : list lint_result;
  errorCount : Z;
  warningCount : Z
}.

Record annotation := {
  ann_path : jsstring;
  start_line : option Z;
  end_line : option Z;
  annotation_level : option jsstring;
  ann_message : jsstring
}.

Record check_output := {
  title : jsstring;
  summary : jsstring;
  annotations : list annotation
}.

(** What [eslint] returns. *)
Record report := {
  conclusion : jsstring;
  output : check_output
}.

(** The body of a check-run request; fields a call leaves out are [None]. *)
Record check_body := {
  body_name : jsstring;
  head_sha : option jsstring;
  status : jsstring;
  started_at : option Z;
  completed_at : option Z;
  body_conclusion : option jsstring;
  body_output : option check_output
}.

Inductive http_method := POST | PATCH.

Record request_opts := {
  method : http_method;
  req_headers : list (jsstring * jsstring);
  body : check_body
}.

(** The response of [request]: [data] may be missing, and so may its [id]. *)
Record response := { data : option (option Z) }.

Record js_error := {
  stack : jsstring;
  err_data : option jsstring
}.

Definition TypeError (what : string) : js_error :=
  {| stack := js "TypeError: " ++ js what; err_data := None |}.

Definition Error (what : string) : js_error :=
  {| stack := js "Error: " ++ js what; err_data := None |}.

Inductive result (A : Type) : Type :=
| resolved (a : A)
| rejected (e : js_error).
Arguments resolved {A} a.
Arguments rejected {A} e.

Record graphql_vars := {
  owner : jsstring;
  name : jsstring;
  prNumber : option Z
}.

(** [prInfo.repository.pullRequest]: the two node lists of the query. *)
Record pull_request := {
  files_nodes : list file;
  commits_nodes : list jsstring
}.

Record engine_opts := {
  extensions : list jsstring;
  ignorePath : jsstring
}.

(** ** The process environment and the collaborators *)

Record Env := {
  GITHUB_SHA : option jsstring;
  GITHUB_TOKEN : option jsstring;
  GITHUB_WORKSPACE : option jsstring;
  GITHUB_REPOSITORY : option jsstring
}.

(** Everything the run reads from outside.  [request] is the module
    [./request], whose source is not part of [index.js]: it is taken as it
    comes, resolving or rejecting; its first argument counts the requests
    made before, so that each call may be answered differently.  [now] is
    the clock [new Date()] reads, by the number of events before the
    reading.  [cwd] is the working directory [run] finds, that is after the
    change of directory of lines 35-40 when [CUSTOM_DIRECTORY] is set.
    [repo_token] is the action input [core.getInput] reads, [context_repo]
    and [context_issue_number] are [github.context]; a missing one is
    [None].  A [None] pull request is a reply whose [repository] or
    [pullRequest] is [null]. *)
Record World := {
  env : Env;
  cwd : jsstring;
  now : nat -> Z;
  request : nat -> jsstring -> request_opts -> result response;
  repo_token : option jsstring;
  context_repo : option (jsstring * jsstring);
  context_issue_number : option Z;
  graphql : jsstring -> graphql_vars -> result (option pull_request);
  executeOnFiles : engine_opts -> list jsstring -> result lint_report;
  existsSync : jsstring -> bool
}.

Inductive log_level := log_info | log_warn | log_error | console_log.

Inductive log_arg :=
| LStr (s : jsstring)
| LEnv (e : Env)
| LFiles (fs : list file)
| LPath (filePath : jsstring) (workspace : option jsstring) (path : jsstring).

(** What the run does that can be seen from outside, in order. *)
Inductive event :=
| Log (lvl : log_level) (args : list log_arg)
| HttpRequest (url : jsstring) (opts : request_opts) (r : result response)
| GraphqlQuery (token : jsstring) (vars : graphql_vars)
    (r : result (option pull_request))
| EngineRun (opts : engine_opts) (files : list jsstring)
    (r : result lint_report).

(** ** Computations: a trace, exceptions and [process.exit] *)

Inductive outcome (A : Type) : Type :=
| Ret (a : A)
| Throw (e : js_error)
| Exit (code : Z).
Arguments Ret {A} a.
Arguments Throw {A} e.
Arguments Exit {A} code.

Definition M (A : Type) : Type := list event -> outcome A * list event.

#[global] Instance M_ret : MRet M := fun A a t => (Ret a, t).

#[global] Instance M_bind : MBind M := fun A B k m t =>
  match m t with
  | (Ret a, t') => k a t'
  | (Throw e, t') => (Throw e, t')
  | (Exit c, t') => (Exit c, t')
  end.

Definition throw {A} (e : js_error) : M A := fun t => (Throw e, t).

(** [process.exit(code)]: nothing after it runs, no handler sees it. *)
Definition process_exit {A} (code : Z) : M A := fun t => (Exit code, t).

Definition emit (e : event) : M unit := fun t => (Ret tt, t ++ [e]).

Definition log (lvl : log_level) (args : list log_arg) : M unit :=
  emit (Log lvl args).

(** [try { body } catch (err) { handler }]. *)
Definition try_catch {A} (body : M A) (handler : js_error -> M A) : M A :=
  fun t =>
    match body t with
    | (Throw e, t') => handler e t'
    | r => r
    end.

(** [await p] of a promise that is already settled. *)
Definition settle {A} (r : result A) : M A :=
  match r with
  | resolved a => mret a
  | rejected e => throw e
  end.

Definition is_request (e : event) : bool :=
  match e with HttpRequest _ _ _ => true | _ => false end.

(** [for (const x of xs) body], with the loop's variables in [s]. *)
Fixpoint for_of {A S} (xs : list A) (body : A -> S -> M S) (s : S) : M S :=
  match xs with
  | [] => mret s
  | x :: rest => s' ← body x s; for_of rest body s'
  end.

(** [xs[i]] for a number [i]. *)
Definition index {A} (xs : list A) (i : Z) : option A :=
  if 0 <=? i then xs !! Z.to_nat i else None.

(** ** The program *)

Definition checkName : jsstring := js "ESLint check".

(** Line 78. *)
Definition levels : list jsstring := [js ""; js "warning"; js "failure"].

Section Program.
Context (w : World).

Definition headers : list (jsstring * jsstring) :=
  [ (js "Content-Type", js "application/json");
    (js "Accept", js "application/vnd.github.antiope-preview+json");
    (js "Authorization", js "Bearer " ++ interp_undefined (GITHUB_TOKEN (env w)));
    (js "User-Agent", js "eslint-action") ].

(** [new Date()]. *)
Definition Date_new : M Z := fun t => (Ret (now w (length t)), t).

(** [await request(url, opts)]. *)
Definition await_request (url : jsstring) (opts : request_opts) : M response :=
  fun t =>
    let r := request w (length (List.filter is_request t)) url opts in
    settle r (t ++ [HttpRequest url opts r]).

Definition await_graphql (token : jsstring) (vars : graphql_vars)
  : M (option pull_request) :=
  fun t =>
    let r := graphql w token vars in
    settle r (t ++ [GraphqlQuery token vars r]).

Definition cli_executeOnFiles (opts : engine_opts) (files : list jsstring)
  : M lint_report :=
  fun t =>
    let r := executeOnFiles w opts files in
    settle r (t ++ [EngineRun opts files r]).

Definition isFileOk (path : jsstring) : bool := existsSync w path.

Definition check_runs_url : jsstring :=
  js "https://api.github.com/repos/"
    ++ interp_undefined (GITHUB_REPOSITORY (env w)) ++ js "/check-runs".

Definition check_run_url (id : option Z) : jsstring :=
  check_runs_url ++ js "/" ++ interp_undefined (Number_toString <$> id).

(** Lines 51-66. *)
Definition createCheck : M (option Z) :=
  started ← Date_new;
  let body :=
    {| body_name := checkName;
       head_sha := GITHUB_SHA (env w);
       status := js "in_progress";
       started_at := Some started;
       completed_at := None;
       body_conclusion := None;
       body_output := None |} in
  resp ← await_request check_runs_url
           {| method := POST; req_headers := headers; body := body |};
  match data resp with
  | Some id => mret id
  | None => throw (TypeError "Cannot destructure property 'id' of 'data'")
  end.

(** Lines 91-104: one diagnostic, one [push]. *)
Definition annotate (path : jsstring) (msg : lint_message) : annotation :=
  let annotationLevel := index levels (severity msg) in
  {| ann_path := path;
     start_line := line msg;
     end_line := line msg;
     annotation_level := annotationLevel;
     ann_message :=
       js "[" ++ interp_nullish (ruleId msg) ++ js "] " ++ message msg |}.

(** Lines 82-105: the body of the outer loop. *)
Definition annotate_result (result : lint_result) (annotations : list annotation)
  : M (list annotation) :=
  path ← match GITHUB_WORKSPACE (env w) with
         | Some workspace =>
             mret (substring (filePath result) (length workspace + 1))
         | None => throw (TypeError "Cannot read property 'length' of undefined")
         end;
  log log_info [LPath (filePath result) (GITHUB_WORKSPACE (env w)) path];;
  mret (fold_left (fun acc msg => acc ++ [annotate path msg])
          (messages result) annotations).

(** Lines 68-115. *)
Definition eslint (files : list jsstring) : M report :=
  rep ← cli_executeOnFiles
          {| extensions := [js ".js"; js ".jsx"; js ".tsx"];
             ignorePath := js ".gitignore" |} files;
  annotations ← for_of (results rep) annotate_result [];
  mret {| conclusion :=
            if 0 <? errorCount rep then js "failure" else js "success";
          output :=
            {| title := checkName;
               summary := Number_toString (errorCount rep) ++ js " error(s), "
                            ++ Number_toString (warningCount rep)
                            ++ js " warning(s) found";
               annotations := annotations |} |}.

(** Lines 117-132. *)
Definition updateCheck (id : option Z) (conclusion : jsstring)
    (output : option check_output) : M unit :=
  completed ← Date_new;
  let body :=
    {| body_name := checkName;
       head_sha := GITHUB_SHA (env w);
       status := js "completed";
       started_at := None;
       completed_at := Some completed;
       body_conclusion := Some conclusion;
       body_output := output |} in
  await_request (check_run_url id)
    {| method := PATCH; req_headers := headers; body := body |};;
  mret tt.

(** Lines 134-140. *)
Definition exitWithError {A} (err : js_error) : M A :=
  log log_error [LStr (js "Error"); LStr (stack err)];;
  match err_data err with
  | Some (c :: d) => log log_error [LStr (c :: d)]
  | _ => mret tt
  end;;
  process_exit 1.

(** Lines 149-213: the body of [try]. *)
Definition run_try (id : option Z) : M unit :=
  token ← match repo_token w with
          | Some token => mret token
          | None => throw (Error "Input required and not supplied: repo-token")
          end;
  repo ← match context_repo w with
         | Some repo => mret repo
         | None => throw (Error "context.repo requires a GITHUB_REPOSITORY")
         end;
  prInfo ← await_graphql token
             {| owner := repo.1; name := repo.2;
                prNumber := context_issue_number w |};
  pr ← match prInfo with
       | Some pr => mret pr
       | None => throw (TypeError "Cannot read property 'commits' of null")
       end;
  currentSha ← match commits_nodes pr with
               | oid :: _ => mret oid
               | [] => throw (TypeError "Cannot read property 'commit' of undefined")
               end;
  log log_info [LStr (js "Commit from GraphQL:"); LStr currentSha];;
  let files := files_nodes pr in
  log log_info [LFiles files];;
  let filesToLint := filesToLint files in
  if (length filesToLint <? 1)%nat then
    log log_warn
      [LStr (js "No files with [" ++ join (js ", ") EXTENSIONS_TO_LINT
             ++ js "] extensions added or modified in this PR, nothing to lint...")]
  else
    (if negb (forallb isFileOk filesToLint)
     then log console_log [LStr (js "Something not fine"); LStr (cwd w)]
     else mret tt);;
    log log_info [LStr (js "Started linting...")];;
    r ← eslint filesToLint;
    log log_info [LStr (js "Ended linting.")];;
    log log_info [LStr (summary (output r))];;
    updateCheck id (conclusion r) (Some (output r));;
    if bool_decide (conclusion r = js "failure")
    then process_exit 78
    else mret tt.

(** Lines 142-218. *)
Definition run : M unit :=
  log log_info [LEnv (env w)];;
  log log_info [LStr (cwd w)];;
  log log_info [LStr (js "Creating check...")];;
  id ← createCheck;
  log log_info [LStr (js "Created check.")];;
  try_catch (run_try id)
    (fun err => updateCheck id (js "failure") None;; exitWithError err).

(** Lines 220-221: [run().catch(exitWithError)]. *)
Definition main : outcome unit * list event :=
  try_catch run exitWithError [].

End Program.

(** The status the process ends with: [process.exit(code)] gives [code]; a
    run that returns leaves nothing pending and the process ends with 0; an
    uncaught rejection would end it with 1. *)
Definition exit_status (o : outcome unit) : Z :=
  match o with
  | Ret _ => 0
  | Exit code => code
  | Throw _ => 1
  end.

Definition requests_of (t : list event) : list (jsstring * request_opts) :=
  omap (fun e => match e with
                 | HttpRequest url opts _ => Some (url, opts)
                 | _ => None
                 end) t.

(** ** Notions the statements use *)

(** The extension of [p] is one of the five lintable ones. *)
Definition lintable (p : jsstring) : Prop :=
  extname p = js ".mjs" ∨ extname p = js ".js" ∨ extname p = js ".ts"
  ∨ extname p = js ".jsx" ∨ extname p = js ".tsx".

#[global] Instance lintable_dec (p : jsstring) : Decision (lintable p).
Proof. unfold lintable. apply _. Defined.

(** The options [eslint] gives the engine. *)
Definition eslint_opts : engine_opts :=
  {| extensions := [js ".js"; js ".jsx"; js ".tsx"];
     ignorePath := js ".gitignore" |}.

(** All diagnostics of a report, file by file, in the engine's order. *)
Definition diagnostics (rs : list lint_result) : list lint_message :=
  mjoin (messages <$> rs).

(** The annotations of a list of results under a workspace root. *)
Definition annotations_of (workspace : jsstring) (rs : list lint_result)
  : list annotation :=
  mjoin ((fun r => annotate (substring (filePath r) (length workspace + 1))
                     <$> messages r) <$> rs).

(** What the outer loop of [eslint] logs. *)
Definition path_logs (workspace : jsstring) (rs : list lint_result)
  : list event :=
  (fun r => Log log_info
              [LPath (filePath r) (Some workspace)
                 (substring (filePath r) (length workspace + 1))]) <$> rs.

Definition report_of (rep : lint_report) (anns : list annotation) : report :=
  {| conclusion := if 0 <? errorCount rep then js "failure" else js "success";
     output :=
       {| title := checkName;
          summary := Number_toString (errorCount rep) ++ js " error(s), "
                       ++ Number_toString (warningCount rep)
                       ++ js " warning(s) found";
          annotations := anns |} |}.

(** What [run] logs before it opens the check run. *)
Definition prelude (w : World) : list event :=
  [ Log log_info [LEnv (env w)]; Log log_info [LStr (cwd w)];
    Log log_info [LStr (js "Creating check...")] ].

Definition created : event := Log log_info [LStr (js "Created check.")].

(** The variables of the pull-request query. *)
Definition query_vars (w : World) (repo : jsstring * jsstring) : graphql_vars :=
  {| owner := repo.1; name := repo.2; prNumber := context_issue_number w |}.

Definition is_log (e : event) : bool :=
  match e with Log _ _ => true | _ => false end.

Definition is_engine_run (e : event) : bool :=
  match e with EngineRun _ _ _ => true | _ => false end.

Definition is_update (e : event) : bool :=
  match e with
  | HttpRequest _ opts _ =>
      match method opts with PATCH => true | POST => false end
  | _ => false
  end.

(** The same world, with every commit oid the query returns replaced. *)
Definition with_oids (f : jsstring -> jsstring) (w : World) : World :=
  {| env := env w; cwd := cwd w; now := now w; request := request w;
     repo_token := repo_token w; context_repo := context_repo w;
     context_issue_number := context_issue_number w;
     graphql := fun token vars =>
       match graphql w token vars with
       | resolved (Some pr) =>
           resolved (Some {| files_nodes := files_nodes pr;
                             commits_nodes := f <$> commits_nodes pr |})
       | r => r
       end;
     executeOnFiles := executeOnFiles w;
     existsSync := existsSync w |}.

(** What [exitWithError] logs. *)
Definition error_logs (err : js_error) : list event :=
  Log log_error [LStr (js "Error"); LStr (stack err)]
  :: match err_data err with
     | Some (c :: d) => [Log log_error [LStr (c :: d)]]
     | _ => []
     end.

(** The number of requests a trace holds. *)
Definition count_requests (t : list event) : nat :=
  length (List.filter is_request t).

(** The request that opens the check run, sent when the trace is [t]. *)
Definition create_opts (w : World) (t : list event) : request_opts :=
  {| method := POST;
     req_headers := headers w;
     body := {| body_name := checkName;
                head_sha := GITHUB_SHA (env w);
                status := js "in_progress";
                started_at := Some (now w (length t));
                completed_at := None;
                body_conclusion := None;
                body_output := None |} |}.

(** The request [updateCheck] sends when the trace is [t]. *)
Definition update_opts (w : World) (conclusion : jsstring)
    (output : option check_output) (t : list event) : request_opts :=
  {| method := PATCH;
     req_headers := headers w;
     body := {| body_name := checkName;
                head_sha := GITHUB_SHA (env w);
                status := js "completed";
                started_at := None;
                completed_at := Some (now w (length t));
                body_conclusion := Some conclusion;
                body_output := output |} |}.

(** The notice of lines 195-199. *)
Definition nothing_to_lint : event :=
  Log log_warn
    [LStr (js "No files with [" ++ join (js ", ") EXTENSIONS_TO_LINT
           ++ js "] extensions added or modified in this PR, nothing to lint...")].

(** What the body of [try] logs between the query and the engine run. *)
Definition query_logs (pr : pull_request) (oid : jsstring) : list event :=
  [ Log log_info [LStr (js "Commit from GraphQL:"); LStr oid];
    Log log_info [LFiles (files_nodes pr)] ].

Definition lint_start_logs (w : World) (targets : list jsstring) : list event :=
  (if forallb (isFileOk w) targets then []
   else [Log console_log [LStr (js "Something not fine"); LStr (cwd w)]])
  ++ [Log log_info [LStr (js "Started linting...")]].

Definition lint_end_logs (r : report) : list event :=
  [ Log log_info [LStr (js "Ended linting.")];
    Log log_info [LStr (summary (output r))] ].

(** A code unit that is neither a separator nor a dot. *)
Definition plain (c : N) : Prop := c ≠ CHAR_FORWARD_SLASH ∧ c ≠ CHAR_DOT.

(** The scan of [extname] has met no dot yet. *)
Definition fresh (st : ext_scan) : Prop :=
  startDot st = -1 ∧ preDotState st = 0
  ∧ (end_ st = -1 ∨ matchedSlash st = false).

(** The conclusion a successful completing update with a report carries;
    [None] for every other event. *)
Definition reported (e : event) : option jsstring :=
  match e with
  | HttpRequest _ opts r =>
      match method opts, body_output (body opts), r with
      | PATCH, Some _, resolved _ => body_conclusion (body opts)
      | _, _, _ => None
      end
  | _ => None
  end.

(** What kind of thing an event is. *)
Inductive event_kind := a_log | a_creation | an_update | a_query | an_engine_run.

Definition kind_of (e : event) : event_kind :=
  match e with
  | Log _ _ => a_log
  | HttpRequest _ opts _ =>
      match method opts with POST => a_creation | PATCH => an_update end
  | GraphqlQuery _ _ _ => a_query
  | EngineRun _ _ _ => an_engine_run
  end.

(** A stretch of a trace that holds no request. *)
Definition quiet (ev : list event) : Prop :=
  Forall (fun e => is_request e = false) ev.

(** A request carries the commit identifier of the environment. *)
Definition sha_of_env (w : World) (e : event) : Prop :=
  match e with
  | HttpRequest _ opts _ => head_sha (body opts) = GITHUB_SHA (env w)
  | _ => True
  end.

(** Two traces of the same length that hold the same requests. *)
Definition sim (t t' : list event) : Prop :=
  length t = length t' ∧ requests_of t = requests_of t'.

(** ** Sample runs *)

Definition sample_env : Env :=
  {| GITHUB_SHA := Some (js "9f2c1e7");
     GITHUB_TOKEN := Some (js "t0ken");
     GITHUB_WORKSPACE := Some (js "/github/workspace");
     GITHUB_REPOSITORY := Some (js "octo/repo") |}.

(** A platform that answers every request, a query answering [q] and an
    engine answering [eng]. *)
Definition sample_world (q : result (option pull_request))
    (eng : result lint_report) : World :=
  {| env := sample_env;
     cwd := js "/github/workspace";
     now := fun n => 1000 + Z.of_nat n;
     request := fun _ _ _ => resolved {| data := Some (Some 42) |};
     repo_token := Some (js "t0ken");
     context_repo := Some (js "octo", js "repo");
     context_issue_number := Some 5;
     graphql := fun _ _ => q;
     executeOnFiles := fun _ _ => eng;
     existsSync := fun _ => true |}.

Definition sample_pr (paths : list jsstring) : result (option pull_request) :=
  resolved (Some {| files_nodes := (fun p => {| path := p |}) <$> paths;
                    commits_nodes := [js "0a1b2c3"] |}).

Definition sample_message (sev : Z) : lint_message :=
  {| line := Some 3; severity := sev; ruleId := Some (Some (js "semi"));
     message := js "Missing semicolon." |}.

Definition sample_report (file : jsstring) (sevs : list Z) (errors warnings : Z)
  : result lint_report :=
  resolved {| results := [ {| filePath := file;
                              messages := sample_message <$> sevs |} ];
              errorCount := errors; warningCount := warnings |}.

(** The query is refused. *)
Definition world_query_fails : World :=
  sample_world (rejected (Error "connect ETIMEDOUT")) (sample_report [] [] 0 0).

(** The engine crashes on the one lint target. *)
Definition world_engine_crashes : World :=
  sample_world (sample_pr [js "a.js"]) (rejected (Error "Parsing error")).

(** The pull request touches nothing lintable. *)
Definition world_nothing_to_lint : World :=
  sample_world (sample_pr [js "README.md"]) (sample_report [] [] 0 0).

(** One error is found in [a.js]. *)
Definition world_one_error : World :=
  sample_world (sample_pr [js "a.js"; js "b.py"; js "c.ts"])
    (sample_report (js "/github/workspace/a.js") [2] 1 0).

(** ** The rest of the module *)

(** Line 12: the tag of the query template joins the literal parts of the
    template. *)
Definition gql (s : list jsstring) : jsstring := join (js "") s.

(** An entry of [readdirSync(source, { withFileTypes: true })]. *)
Record dirent := {
  dirent_name : jsstring;
  isDirectory : bool
}.

(** Lines 20-22; [readdirSync] returns the entries or throws. *)
Definition getDirectories (readdirSync : jsstring -> result (list dirent))
    (source : jsstring) : result (list jsstring) :=
  match readdirSync source with
  | resolved entries =>
      resolved (List.map dirent_name (List.filter isDirectory entries))
  | rejected e => rejected e
  end.

(** What the module reads when it is loaded, before [run] is called:
    [path_join] is [join] of the [path] module, [process_chdir] changes the
    working directory and answers with the working directory the process
    then has, or throws. *)
Record Startup := {
  CUSTOM_DIRECTORY : option jsstring;
  process_cwd : jsstring;
  path_join : jsstring -> jsstring -> jsstring;
  process_chdir : jsstring -> result jsstring;
  readdirSync : jsstring -> result (list dirent)
}.

Inductive load_event :=
| LoadInfo (line : jsstring)
| Chdir (directory : jsstring) (r : result jsstring)
| LoadInfoNames (names : list jsstring).

(** Lines 35-40: the working directory [run] will find, or the exception
    that ends the loading. *)
Definition load (s : Startup) : outcome jsstring * list load_event :=
  match CUSTOM_DIRECTORY s with
  | Some (c :: d) =>
      let directory := path_join s (process_cwd s) (c :: d) in
      let r := process_chdir s directory in
      let t := [LoadInfo (js "New directory: " ++ directory);
                Chdir directory r] in
      match r with
      | resolved cwd' =>
          match getDirectories (readdirSync s) cwd' with
          | resolved names => (Ret cwd', t ++ [LoadInfoNames names])
          | rejected e => (Throw e, t)
          end
      | rejected e => (Throw e, t)
      end
  | _ => (Ret (process_cwd s), [])
  end.

Definition with_cwd (d : jsstring) (w : World) : World :=
  {| env := env w; cwd := d; now := now w; request := request w;
     repo_token := repo_token w; context_repo := context_repo w;
     context_issue_number := context_issue_number w;
     graphql := graphql w; executeOnFiles := executeOnFiles w;
     existsSync := existsSync w |}.

(** The whole script: the module is loaded, then lines 220-221 run; an
    exception of the loading ends the process before [run] is called. *)
Definition script (s : Startup) (w : World)
  : list load_event * (outcome unit * list event) :=
  match load s with
  | (Ret d, t) => (t, main (with_cwd d w))
  | (Throw e, t) => (t, (Throw e, []))
  | (Exit code, t) => (t, (Exit code, []))
  end.

(** ** More notions the statements use *)

(** The events of a trace that are not log lines. *)
Definition deeds (t : list event) : list event :=
  List.filter (fun e => negb (is_log e)) t.

(** Their kinds. *)
Definition actions (t : list event) : list event_kind :=
  kind_of <$> deeds t.

(** What every request of a run with trace [t] looks like.  It carries the
    four headers of lines 44-49 and the name of the check.  The creation is
    posted to the check runs of the repository, is in progress and carries
    no conclusion; an update is a [PATCH] of the check run whose id the
    answer to the creation carried, at the address of the check runs
    followed by [/] and that id, is completed, and carries either a report
    with its conclusion or no output and the conclusion [failure]. *)
Definition request_form (w : World) (t : list event) (e : event) : Prop :=
  match e with
  | HttpRequest url opts _ =>
      req_headers opts
      = [ (js "Content-Type", js "application/json");
          (js "Accept", js "application/vnd.github.antiope-preview+json");
          (js "Authorization",
           js "Bearer " ++ match GITHUB_TOKEN (env w) with
                           | Some token => token
                           | None => js "undefined"
                           end);
          (js "User-Agent", js "eslint-action") ]
      /\ body_name (body opts) = js "ESLint check"
      /\ match method opts with
         | POST =>
             url = js "https://api.github.com/repos/"
                   ++ match GITHUB_REPOSITORY (env w) with
                      | Some repository => repository
                      | None => js "undefined"
                      end
                   ++ js "/check-runs"
             /\ status (body opts) = js "in_progress"
             /\ body_conclusion (body opts) = None
             /\ body_output (body opts) = None
             /\ is_Some (started_at (body opts))
             /\ completed_at (body opts) = None
         | PATCH =>
             (exists address copts resp id,
                HttpRequest address copts (resolved resp) ∈ t
                /\ method copts = POST
                /\ data resp = Some id
                /\ url = (js "https://api.github.com/repos/"
                          ++ match GITHUB_REPOSITORY (env w) with
                             | Some repository => repository
                             | None => js "undefined"
                             end
                          ++ js "/check-runs")
                         ++ js "/"
                         ++ match id with
                            | Some n => Number_toString n
                            | None => js "undefined"
                            end)
             /\ status (body opts) = js "completed"
             /\ started_at (body opts) = None
             /\ is_Some (completed_at (body opts))
             /\ ((body_output (body opts) = None
                  /\ body_conclusion (body opts) = Some (js "failure"))
                 \/ (is_Some (body_output (body opts))
                     /\ (body_conclusion (body opts) = Some (js "failure")
                         \/ body_conclusion (body opts)
                            = Some (js "success"))))
         end
  | _ => True
  end.

(** What a run can do and the status it then ends with. *)
Definition run_shapes : list (list event_kind * Z) :=
  [ ([a_creation], 1);
    ([a_creation; an_update], 1);
    ([a_creation; a_query], 0);
    ([a_creation; a_query; an_update], 1);
    ([a_creation; a_query; an_engine_run; an_update], 0);
    ([a_creation; a_query; an_engine_run; an_update], 78);
    ([a_creation; a_query; an_engine_run; an_update], 1);
    ([a_creation; a_query; an_engine_run; an_update; an_update], 1) ].

(** The trace once the check run is open. *)
Definition opened (w : World) (resp : response) : list event :=
  prelude w
  ++ [HttpRequest (check_runs_url w) (create_opts w (prelude w)) (resolved resp);
      created].

(** The trace when the engine is about to run. *)
Definition linting (w : World) (resp : response) (token : jsstring)
    (repo : jsstring * jsstring) (pr : pull_request) (oid : jsstring)
  : list event :=
  opened w resp
  ++ [GraphqlQuery token (query_vars w repo) (resolved (Some pr))]
  ++ query_logs pr oid ++ lint_start_logs w (filesToLint (files_nodes pr)).

(** The handler of [catch] in [run] on error [err] at trace [t], followed by
    the handler of line 221 when the update is rejected. *)
Definition failed_update (w : World) (id : option Z) (err : js_error)
    (t : list event) : outcome unit * list event :=
  let opts := update_opts w (js "failure") None t in
  let resp := request w (count_requests t) (check_run_url w id) opts in
  (Exit 1,
   t ++ [HttpRequest (check_run_url w id) opts resp]
     ++ error_logs (match resp with resolved _ => err | rejected e => e end)).

(** The ways a run can go, with what decides each. *)
Inductive run_leaf (w : World) : outcome unit * list event -> Prop :=
| leaf_not_opened r0 e :
    request w 0 (check_runs_url w) (create_opts w (prelude w)) = r0 ->
    r0 = rejected e
    \/ (exists resp, r0 = resolved resp /\ data resp = None
          /\ e = TypeError "Cannot destructure property 'id' of 'data'") ->
    run_leaf w
      (Exit 1,
       prelude w
       ++ [HttpRequest (check_runs_url w) (create_opts w (prelude w)) r0]
       ++ error_logs e)
| leaf_no_query resp id e :
    request w 0 (check_runs_url w) (create_opts w (prelude w))
      = resolved resp ->
    data resp = Some id ->
    (repo_token w = None
     /\ e = Error "Input required and not supplied: repo-token")
    \/ (is_Some (repo_token w) /\ context_repo w = None
        /\ e = Error "context.repo requires a GITHUB_REPOSITORY") ->
    run_leaf w (failed_update w id e (opened w resp))
| leaf_bad_query resp id token repo q e :
    request w 0 (check_runs_url w) (create_opts w (prelude w))
      = resolved resp ->
    data resp = Some id ->
    repo_token w = Some token -> context_repo w = Some repo ->
    graphql w token (query_vars w repo) = q ->
    q = rejected e
    \/ (q = resolved None
        /\ e = TypeError "Cannot read property 'commits' of null")
    \/ (exists pr, q = resolved (Some pr) /\ commits_nodes pr = []
          /\ e = TypeError "Cannot read property 'commit' of undefined") ->
    run_leaf w
      (failed_update w id e
         (opened w resp ++ [GraphqlQuery token (query_vars w repo) q]))
| leaf_nothing_to_lint resp id token repo pr oid rest :
    request w 0 (check_runs_url w) (create_opts w (prelude w))
      = resolved resp ->
    data resp = Some id ->
    repo_token w = Some token -> context_repo w = Some repo ->
    graphql w token (query_vars w repo) = resolved (Some pr) ->
    commits_nodes pr = oid :: rest ->
    filesToLint (files_nodes pr) = [] ->
    run_leaf w
      (Ret tt,
       opened w resp
       ++ [GraphqlQuery token (query_vars w repo) (resolved (Some pr))]
       ++ query_logs pr oid ++ [nothing_to_lint])
| leaf_lint_threw resp id token repo pr oid rest e t4 :
    request w 0 (check_runs_url w) (create_opts w (prelude w))
      = resolved resp ->
    data resp = Some id ->
    repo_token w = Some token -> context_repo w = Some repo ->
    graphql w token (query_vars w repo) = resolved (Some pr) ->
    commits_nodes pr = oid :: rest ->
    filesToLint (files_nodes pr) <> [] ->
    eslint w (filesToLint (files_nodes pr)) (linting w resp token repo pr oid)
      = (Throw e, t4) ->
    run_leaf w (failed_update w id e t4)
| leaf_reported resp id token repo pr oid rest r t4 resp' :
    request w 0 (check_runs_url w) (create_opts w (prelude w))
      = resolved resp ->
    data resp = Some id ->
    repo_token w = Some token -> context_repo w = Some repo ->
    graphql w token (query_vars w repo) = resolved (Some pr) ->
    commits_nodes pr = oid :: rest ->
    filesToLint (files_nodes pr) <> [] ->
    eslint w (filesToLint (files_nodes pr)) (linting w resp token repo pr oid)
      = (Ret r, t4) ->
    request w (count_requests (t4 ++ lint_end_logs r)) (check_run_url w id)
      (update_opts w (conclusion r) (Some (output r)) (t4 ++ lint_end_logs r))
      = resolved resp' ->
    run_leaf w
      (if bool_decide (conclusion r = js "failure") then Exit 78 else Ret tt,
       (t4 ++ lint_end_logs r)
       ++ [HttpRequest (check_run_url w id)
             (update_opts w (conclusion r) (Some (output r))
                (t4 ++ lint_end_logs r))
             (resolved resp')])
| leaf_report_rejected resp id token repo pr oid rest r t4 e :
    request w 0 (check_runs_url w) (create_opts w (prelude w))
      = resolved resp ->
    data resp = Some id ->
    repo_token w = Some token -> context_repo w = Some repo ->
    graphql w token (query_vars w repo) = resolved (Some pr) ->
    commits_nodes pr = oid :: rest ->
    filesToLint (files_nodes pr) <> [] ->
    eslint w (filesToLint (files_nodes pr)) (linting w resp token repo pr oid)
      = (Ret r, t4) ->
    request w (count_requests (t4 ++ lint_end_logs r)) (check_run_url w id)
      (update_opts w (conclusion r) (Some (output r)) (t4 ++ lint_end_logs r))
      = rejected e ->
    run_leaf w
      (failed_update w id e
         ((t4 ++ lint_end_logs r)
          ++ [HttpRequest (check_run_url w id)
                (update_opts w (conclusion r) (Some (output r))
                   (t4 ++ lint_end_logs r))
                (rejected e)])).

(** The code units of [p] from [n] on were scanned and the state is [st]:
    either only trailing separators were met, or the last component ends at
    [end_ st], nothing in between is a separator, and [startDot st], when
    set, is the last dot of that stretch. *)
Definition scan_inv (p : jsstring) (n : nat) (st : ext_scan) : Prop :=
  (n ≤ length p)%nat
  ∧ ((end_ st = -1 ∧ startDot st = -1 ∧ preDotState st = 0
      ∧ matchedSlash st = true
      ∧ (∀ i, (n ≤ i < length p)%nat → p !! i = Some CHAR_FORWARD_SLASH))
     ∨ (∃ e : nat,
          end_ st = Z.of_nat e ∧ (n < e ≤ length p)%nat
          ∧ matchedSlash st = false
          ∧ (∀ i, (e ≤ i < length p)%nat → p !! i = Some CHAR_FORWARD_SLASH)
          ∧ (∀ i, (n ≤ i < e)%nat → p !! i ≠ Some CHAR_FORWARD_SLASH)
          ∧ ((startDot st = -1 ∧ preDotState st = 0
              ∧ (∀ i, (n ≤ i < e)%nat → p !! i ≠ Some CHAR_DOT))
             ∨ (∃ d : nat,
                  startDot st = Z.of_nat d ∧ (n ≤ d < e)%nat
                  ∧ p !! d = Some CHAR_DOT
                  ∧ (∀ i, (d < i < e)%nat → p !! i ≠ Some CHAR_DOT)
                  ∧ (preDotState st = 0 ↔ n = d))))).

(** ** More sample runs *)

(** The sample world without a workspace root in the environment. *)
Definition world_without_workspace (eng : result lint_report) : World :=
  {| env := {| GITHUB_SHA := Some (js "9f2c1e7");
               GITHUB_TOKEN := Some (js "t0ken");
               GITHUB_WORKSPACE := None;
               GITHUB_REPOSITORY := Some (js "octo/repo") |};
     cwd := js "/github/workspace";
     now := fun n => 1000 + Z.of_nat n;
     request := fun _ _ _ => resolved {| data := Some (Some 42) |};
     repo_token := Some (js "t0ken");
     context_repo := Some (js "octo", js "repo");
     context_issue_number := Some 5;
     graphql := fun _ _ => sample_pr [js "a.js"];
     executeOnFiles := fun _ _ => eng;
     existsSync := fun _ => true |}.

(** The sample world with a platform answering request number [n] with
    [answer n], and files that exist when [present] says so. *)
Definition world_with_platform (answer : nat -> result response)
    (present : jsstring -> bool) (q : result (option pull_request))
    (eng : result lint_report) : World :=
  {| env := sample_env;
     cwd := js "/github/workspace";
     now := fun n => 1000 + Z.of_nat n;
     request := fun n _ _ => answer n;
     repo_token := Some (js "t0ken");
     context_repo := Some (js "octo", js "repo");
     context_issue_number := Some 5;
     graphql := fun _ _ => q;
     executeOnFiles := fun _ _ => eng;
     existsSync := present |}.


(** The sample world without the [repo-token] input. *)
Definition world_without_token : World :=
  {| env := sample_env;
     cwd := js "/github/workspace";
     now := fun n => 1000 + Z.of_nat n;
     request := fun _ _ _ => resolved {| data := Some (Some 42) |};
     repo_token := None;
     context_repo := Some (js "octo", js "repo");
     context_issue_number := Some 5;
     graphql := fun _ _ => sample_pr [js "a.js"];
     executeOnFiles := fun _ _ => sample_report (js "/github/workspace/a.js") [] 0 0;
     existsSync := fun _ => true |}.

(** A loading that changes to [sub], in a tree where that fails or not. *)
Definition sample_startup (custom : option jsstring)
    (chdir : result jsstring) : Startup :=
  {| CUSTOM_DIRECTORY := custom;
     process_cwd := js "/github/workspace";
     path_join := fun a b => a ++ js "/" ++ b;
     process_chdir := fun _ => chdir;
     readdirSync := fun _ =>
       resolved [ {| dirent_name := js "src"; isDirectory := true |};
                  {| dirent_name := js "package.json"; isDirectory := false |};
                  {| dirent_name := js "test"; isDirectory := true |} ] |}.

(** * Properties *)

(** ** Sanity checks of the embedding *)

Example extname_plain : extname (js "src/app.test.tsx") = js ".tsx".
Proof. reflexivity. Qed.

Example extname_dotfile : extname (js "conf/.eslintrc") = js "".
Proof. reflexivity. Qed.

Example extname_trailing_slash : extname (js "lib/a.js//") = js ".js".
Proof. reflexivity. Qed.

Example extname_dotdot : extname (js "a/..") = js "".
Proof. reflexivity. Qed.

Example extname_trailing_dot : extname (js "a.") = js ".".
Proof. reflexivity. Qed.

Example filesToLint_scenario :
  filesToLint [ {| path := js "a.js" |}; {| path := js "b.py" |};
                {| path := js "c.ts" |} ] = [js "a.js"; js "c.ts"].
Proof. reflexivity. Qed.

Example main_scenario_lint_failure :
  exit_status
    (main (sample_world (sample_pr [js "a.js"; js "b.py"; js "c.ts"])
             (sample_report (js "/github/workspace/a.js") [2] 1 0))).1 = 78.
Proof. reflexivity. Qed.

(** ** The lint target filter *)

Lemma Set_has_lintable (p : jsstring) :
  Set_has EXTENSIONS_TO_LINT (extname p) = true ↔ lintable p.
Proof.
  unfold Set_has, EXTENSIONS_TO_LINT, lintable.
  rewrite bool_decide_eq_true, !elem_of_cons, elem_of_nil. tauto.
Qed.

Lemma filesToLint_nil : filesToLint [] = [].
Proof. reflexivity. Qed.

Lemma filesToLint_cons (f : file) (files : list file) :
  filesToLint (f :: files) =
    if decide (lintable (path f)) then path f :: filesToLint files
    else filesToLint files.
Proof.
  unfold filesToLint. simpl.
  destruct (Set_has EXTENSIONS_TO_LINT (extname (path f))) eqn:E.
  - apply Set_has_lintable in E. rewrite decide_True by done. done.
  - rewrite decide_False; [done|]. intros H%Set_has_lintable. congruence.
Qed.

Lemma filesToLint_sublist (files : list file) :
  filesToLint files `sublist_of` (path <$> files).
Proof.
  induction files as [|f files IH]; [constructor|].
  rewrite filesToLint_cons, fmap_cons.
  case_decide; by constructor.
Qed.

Lemma elem_of_filesToLint (files : list file) (p : jsstring) :
  p ∈ filesToLint files ↔ p ∈ (path <$> files) ∧ lintable p.
Proof.
  induction files as [|f files IH].
  - rewrite filesToLint_nil, fmap_nil, elem_of_nil. tauto.
  - rewrite filesToLint_cons, fmap_cons. case_decide as Hf.
    + rewrite !elem_of_cons, IH. intuition (subst; done).
    + rewrite elem_of_cons, IH. intuition (subst; done).
Qed.

Lemma filesToLint_greatest (files : list file) (l : list jsstring) :
  l `sublist_of` (path <$> files) → Forall lintable l →
  l `sublist_of` filesToLint files.
Proof.
  revert l. induction files as [|f files IH]; intros l Hsub Hall.
  - rewrite fmap_nil in Hsub. apply sublist_nil_r in Hsub as ->. constructor.
  - rewrite fmap_cons in Hsub. rewrite filesToLint_cons.
    apply sublist_cons_r in Hsub as [Hsub|(l' & -> & Hsub)].
    + case_decide; [apply sublist_cons|]; by apply IH.
    + apply Forall_cons in Hall as [Hp Hall].
      rewrite decide_True by done. apply sublist_skip. by apply IH.
Qed.

(** C5: the filter's output is a subsequence of the changed paths, so it
    keeps their relative order; a path is in it exactly when it is a changed
    path whose extension is one of [.mjs], [.js], [.ts], [.jsx], [.tsx]; and
    it leaves no such path out, occurrence by occurrence: every subsequence
    of the changed paths made of lintable paths is a subsequence of it. *)
Theorem filesToLint_filters_in_order (files : list file) :
  filesToLint files `sublist_of` (path <$> files)
  ∧ (∀ p, p ∈ filesToLint files ↔ p ∈ (path <$> files) ∧ lintable p)
  ∧ (∀ l, l `sublist_of` (path <$> files) → Forall lintable l →
          l `sublist_of` filesToLint files).
Proof.
  split; [apply filesToLint_sublist|].
  split; [apply elem_of_filesToLint|apply filesToLint_greatest].
Qed.

Lemma filesToLint_filters_in_order_witness :
  [js "a.js"; js "c.ts"]
    `sublist_of` filesToLint [ {| path := js "a.js" |}; {| path := js "b.py" |};
                                {| path := js "c.ts" |} ].
Proof.
  apply (proj2 (proj2 (filesToLint_filters_in_order
                         [ {| path := js "a.js" |}; {| path := js "b.py" |};
                           {| path := js "c.ts" |} ]))).
  - apply sublist_skip, sublist_cons, sublist_skip, sublist_nil.
  - apply Forall_cons; split; [right; left; reflexivity|].
    apply Forall_cons; split; [right; right; left; reflexivity|].
    apply Forall_nil_2.
Defined.

(** ** Dotfiles have no extension *)

Lemma fresh_init : fresh ext_scan_init.
Proof. repeat split. by left. Qed.

Lemma extname_step_plain (p : jsstring) (i : nat) (st : ext_scan) (c : N) :
  p !! i = Some c → plain c → fresh st →
  ∃ st', extname_step p i st = inr st' ∧ fresh st'.
Proof.
  intros Hc [Hs Hd] (Hsd & Hpd & He).
  unfold extname_step, charCodeAt, code_is. rewrite Hc.
  rewrite !bool_decide_eq_false_2 by congruence.
  destruct (end_ st =? -1) eqn:E; simpl; rewrite Hsd; simpl.
  - eexists; split; [done|]. repeat split; simpl; auto.
  - eexists; split; [done|]. repeat split; auto.
Qed.

Lemma extname_step_dot (p : jsstring) (i : nat) (st : ext_scan) :
  p !! i = Some CHAR_DOT → fresh st →
  ∃ st', extname_step p i st = inr st'
         ∧ preDotState st' = 0 ∧ matchedSlash st' = false.
Proof.
  intros Hc (Hsd & Hpd & He).
  unfold extname_step, charCodeAt, code_is. rewrite Hc.
  rewrite bool_decide_eq_false_2 by done.
  rewrite bool_decide_eq_true_2 by done.
  destruct (end_ st =? -1) eqn:E; simpl; rewrite Hsd; simpl.
  - eexists; split; [done|]. done.
  - eexists; split; [done|]. split; [done|].
    destruct He as [He|He]; [|done]. apply Z.eqb_neq in E. done.
Qed.

Lemma extname_step_slash (p : jsstring) (i : nat) (st : ext_scan) :
  p !! i = Some CHAR_FORWARD_SLASH → matchedSlash st = false →
  ∃ st', extname_step p i st = inl st' ∧ preDotState st' = preDotState st.
Proof.
  intros Hc Hm. unfold extname_step, charCodeAt, code_is. rewrite Hc.
  rewrite bool_decide_eq_true_2 by done. rewrite Hm. simpl.
  eexists; split; done.
Qed.

Lemma extname_loop_plain (body pre suf : jsstring) (st : ext_scan) :
  Forall plain body → fresh st →
  ∃ st', extname_loop (pre ++ body ++ suf) (length pre + length body) st
           = extname_loop (pre ++ body ++ suf) (length pre) st'
         ∧ fresh st'.
Proof.
  revert suf st. induction body as [|c body IH] using rev_ind; intros suf st Hb Hst.
  - exists st. by rewrite Nat.add_0_r.
  - apply Forall_app in Hb as [Hb Hc]. rewrite Forall_singleton in Hc.
    rewrite length_app. simpl.
    replace (length pre + (length body + 1))%nat
      with (S (length pre + length body)) by lia.
    simpl.
    assert ((pre ++ (body ++ [c]) ++ suf) !! (length pre + length body)%nat
            = Some c) as Hi.
    { rewrite lookup_app_r by lia. rewrite <- app_assoc.
      rewrite lookup_app_r by lia.
      replace (length pre + length body - length pre - length body)%nat
        with 0%nat by lia. done. }
    destruct (extname_step_plain _ _ st c Hi Hc Hst) as (st1 & -> & Hst1).
    rewrite <- app_assoc. simpl. by apply IH.
Qed.

Lemma extname_of_scan (p : jsstring) :
  preDotState (extname_loop p (length p) ext_scan_init) = 0 → extname p = [].
Proof.
  intros H. unfold extname. rewrite H. simpl.
  by rewrite !orb_true_r.
Qed.

Lemma extname_dotfile_bare (body : jsstring) :
  Forall plain body → extname (CHAR_DOT :: body) = [].
Proof.
  intros Hb. apply extname_of_scan.
  destruct (extname_loop_plain body [CHAR_DOT] [] ext_scan_init Hb fresh_init)
    as (st & E & Hst).
  rewrite app_nil_r in E. cbn [app length Nat.add] in E.
  cbn [length]. rewrite E.
  destruct (extname_step_dot (CHAR_DOT :: body) 0 st eq_refl Hst)
    as (st' & E' & Hp & _).
  simpl. by rewrite E'.
Qed.

Lemma extname_dotfile_in_dir (dir body : jsstring) :
  Forall plain body →
  extname (dir ++ CHAR_FORWARD_SLASH :: CHAR_DOT :: body) = [].
Proof.
  intros Hb. apply extname_of_scan.
  destruct (extname_loop_plain body (dir ++ [CHAR_FORWARD_SLASH; CHAR_DOT]) []
              ext_scan_init Hb fresh_init) as (st & E & Hst).
  rewrite app_nil_r, <- app_assoc in E. cbn [app] in E.
  rewrite length_app in E. cbn [length] in E.
  rewrite length_app. cbn [length].
  replace (length dir + S (S (length body)))%nat
    with (length dir + 2 + length body)%nat by lia.
  rewrite E. replace (length dir + 2)%nat with (S (S (length dir))) by lia.
  set (p := dir ++ _).
  assert (p !! S (length dir) = Some CHAR_DOT) as Hdot.
  { subst p. rewrite lookup_app_r by lia.
    by replace (S (length dir) - length dir)%nat with 1%nat by lia. }
  assert (p !! length dir = Some CHAR_FORWARD_SLASH) as Hslash.
  { subst p. rewrite lookup_app_r by lia. by rewrite Nat.sub_diag. }
  destruct (extname_step_dot p _ st Hdot Hst) as (st1 & E1 & Hp1 & Hm1).
  destruct (extname_step_slash p _ st1 Hslash Hm1) as (st2 & E2 & Hp2).
  simpl. rewrite E1, E2. congruence.
Qed.

(** C10: a changed file whose basename is exactly a lintable extension, such
    as [.js] or [src/.tsx], has the empty extension and is never selected. *)
Theorem dotfile_named_like_extension_not_selected
    (dir ext : jsstring) (files : list file) :
  ext ∈ EXTENSIONS_TO_LINT →
  extname ext = js "" ∧ extname (dir ++ js "/" ++ ext) = js ""
  ∧ (ext ∉ filesToLint files) ∧ ((dir ++ js "/" ++ ext) ∉ filesToLint files).
Proof.
  intros Hext.
  assert (∃ body, ext = CHAR_DOT :: body ∧ Forall plain body)
    as (body & -> & Hbody).
  { unfold EXTENSIONS_TO_LINT in Hext.
    rewrite !elem_of_cons, elem_of_nil in Hext.
    destruct Hext as [->|[->|[->|[->|[->|[]]]]]];
      (eexists; split; [reflexivity|]); repeat constructor; discriminate. }
  assert (extname (CHAR_DOT :: body) = []) as E1
    by by apply extname_dotfile_bare.
  assert (extname (dir ++ js "/" ++ CHAR_DOT :: body) = []) as E2
    by by apply extname_dotfile_in_dir.
  split; [done|]. split; [done|].
  split; rewrite elem_of_filesToLint; intros [_ Hl]; unfold lintable in Hl.
  - rewrite E1 in Hl. by destruct Hl as [?|[?|[?|[?|?]]]].
  - rewrite E2 in Hl. by destruct Hl as [?|[?|[?|[?|?]]]].
Qed.

Lemma dotfile_named_like_extension_not_selected_witness :
  js ".js" ∈ EXTENSIONS_TO_LINT
  ∧ extname (js "src" ++ js "/" ++ js ".js") = js ""
  ∧ (js "src/.js" ∉ filesToLint [ {| path := js "src/.js" |};
                                   {| path := js "src/a.js" |} ]).
Proof.
  assert (js ".js" ∈ EXTENSIONS_TO_LINT) as H
    by (apply list_elem_of_further, list_elem_of_here).
  split; [exact H|].
  pose proof (dotfile_named_like_extension_not_selected (js "src") (js ".js")
                [ {| path := js "src/.js" |}; {| path := js "src/a.js" |} ] H)
    as (_ & E & _ & Hn).
  split; [exact E|exact Hn].
Defined.

(** ** The normalizer *)

Ltac run_step :=
  cbv [mbind M_bind mret M_ret throw process_exit emit log settle
       await_request await_graphql cli_executeOnFiles Date_new].

Lemma push_all {A B} (f : A → B) (l : list A) (acc : list B) :
  fold_left (fun acc x => acc ++ [f x]) l acc = acc ++ (f <$> l).
Proof.
  revert acc. induction l as [|x l IH]; intros acc; simpl.
  - by rewrite app_nil_r.
  - rewrite IH, <- app_assoc. done.
Qed.

Lemma bind_run {A B} (m : M A) (k : A → M B) (t : list event) :
  (m ≫= k) t = match m t with
               | (Ret a, t') => k a t'
               | (Throw e, t') => (Throw e, t')
               | (Exit c, t') => (Exit c, t')
               end.
Proof. reflexivity. Qed.

Lemma annotate_result_run (w : World) (workspace : jsstring)
    (r : lint_result) (acc : list annotation) (t : list event) :
  GITHUB_WORKSPACE (env w) = Some workspace →
  annotate_result w r acc t
  = (Ret (acc ++ (annotate (substring (filePath r) (length workspace + 1))
                    <$> messages r)),
     t ++ [Log log_info
             [LPath (filePath r) (Some workspace)
                (substring (filePath r) (length workspace + 1))]]).
Proof.
  intros Hws. unfold annotate_result. rewrite Hws. run_step.
  by rewrite push_all.
Qed.

Lemma for_of_annotate_result (w : World) (workspace : jsstring)
    (rs : list lint_result) (acc : list annotation) (t : list event) :
  GITHUB_WORKSPACE (env w) = Some workspace →
  for_of rs (annotate_result w) acc t
  = (Ret (acc ++ annotations_of workspace rs), t ++ path_logs workspace rs).
Proof.
  intros Hws. revert acc t. induction rs as [|r rs IH]; intros acc t.
  - simpl. unfold annotations_of, path_logs. simpl. by rewrite !app_nil_r.
  - cbn [for_of]. rewrite bind_run, (annotate_result_run w workspace) by done.
    rewrite IH. unfold annotations_of, path_logs.
    rewrite !fmap_cons. cbn [mjoin]. rewrite <- !app_assoc. done.
Qed.

Lemma for_of_annotate_result_undefined (w : World)
    (rs : list lint_result) (t : list event) :
  GITHUB_WORKSPACE (env w) = None →
  for_of rs (annotate_result w) [] t
  = match rs with
    | [] => (Ret [], t)
    | _ :: _ =>
        (Throw (TypeError "Cannot read property 'length' of undefined"), t)
    end.
Proof.
  intros Hws. destruct rs as [|r rs]; [done|].
  cbn [for_of]. unfold annotate_result. rewrite Hws. done.
Qed.

Lemma eslint_run (w : World) (files : list jsstring) (t : list event) :
  eslint w files t
  = let r := executeOnFiles w eslint_opts files in
    let t' := t ++ [EngineRun eslint_opts files r] in
    match r with
    | rejected e => (Throw e, t')
    | resolved rep =>
        match GITHUB_WORKSPACE (env w), results rep with
        | Some workspace, rs =>
            (Ret (report_of rep (annotations_of workspace rs)),
             t' ++ path_logs workspace rs)
        | None, [] => (Ret (report_of rep []), t')
        | None, _ :: _ =>
            (Throw (TypeError "Cannot read property 'length' of undefined"), t')
        end
    end.
Proof.
  unfold eslint. run_step. fold eslint_opts.
  destruct (executeOnFiles w eslint_opts files) as [rep|e]; [|done].
  destruct (GITHUB_WORKSPACE (env w)) as [workspace|] eqn:Hws.
  - by rewrite (for_of_annotate_result w workspace).
  - rewrite for_of_annotate_result_undefined by done.
    by destruct (results rep).
Qed.

Lemma exitWithError_run {A} (err : js_error) (t : list event) :
  exitWithError (A:=A) err t = (Exit 1, t ++ error_logs err).
Proof.
  unfold exitWithError, error_logs. run_step.
  destruct (err_data err) as [[|c d]|]; rewrite <- ?app_assoc; try done.
  all: by rewrite app_nil_r.
Qed.


Lemma mjoin_cons {A} (l : list A) (ls : list (list A)) :
  mjoin (l :: ls) = l ++ mjoin ls.
Proof. reflexivity. Qed.

Lemma eslint_returns (w : World) (files : list jsstring) (t : list event)
    (rep : lint_report) (workspace : jsstring) :
  executeOnFiles w eslint_opts files = resolved rep →
  GITHUB_WORKSPACE (env w) = Some workspace →
  eslint w files t
  = (Ret (report_of rep (annotations_of workspace (results rep))),
     t ++ [EngineRun eslint_opts files (resolved rep)]
       ++ path_logs workspace (results rep)).
Proof.
  intros He Hws. rewrite eslint_run. cbv zeta. rewrite He, Hws.
  by rewrite <- app_assoc.
Qed.

Lemma eslint_report_of (w : World) (files : list jsstring) (t t' : list event)
    (r : report) (rep : lint_report) :
  executeOnFiles w eslint_opts files = resolved rep →
  eslint w files t = (Ret r, t') →
  ∃ anns, r = report_of rep anns.
Proof.
  intros He. rewrite eslint_run. cbv zeta. rewrite He.
  destruct (GITHUB_WORKSPACE (env w)); [|destruct (results rep)];
    intros [= <- _]; eauto.
Qed.

Lemma annotations_of_levels (workspace : jsstring) (rs : list lint_result) :
  annotation_level <$> annotations_of workspace rs
  = (fun msg => index levels (severity msg)) <$> diagnostics rs.
Proof.
  unfold annotations_of, diagnostics.
  induction rs as [|r rs IH]; [done|].
  rewrite !fmap_cons, !mjoin_cons, !fmap_app, IH. f_equal.
  rewrite <- list_fmap_compose. done.
Qed.

Lemma annotations_of_paths (workspace : jsstring) (rs : list lint_result) :
  ann_path <$> annotations_of workspace rs
  = mjoin ((fun r => (fun _ => drop (length workspace + 1) (filePath r))
                       <$> messages r) <$> rs).
Proof.
  unfold annotations_of.
  induction rs as [|r rs IH]; [done|].
  rewrite !fmap_cons, !mjoin_cons, !fmap_app, IH. f_equal.
  rewrite <- list_fmap_compose. done.
Qed.

Lemma substring_root (workspace rest : jsstring) (sep : N) :
  substring (workspace ++ sep :: rest) (length workspace + 1) = rest.
Proof.
  unfold substring. rewrite drop_app_ge by lia.
  by replace (length workspace + 1 - length workspace)%nat with 1%nat by lia.
Qed.

Lemma elem_of_annotations_of (workspace : jsstring) (rs : list lint_result)
    (r : lint_result) (msg : lint_message) :
  r ∈ rs → msg ∈ messages r →
  annotate (substring (filePath r) (length workspace + 1)) msg
    ∈ annotations_of workspace rs.
Proof.
  intros Hr Hm. unfold annotations_of. apply list_elem_of_join.
  eexists. split; [|apply list_elem_of_fmap; exists r; split; [reflexivity|done]].
  apply list_elem_of_fmap. by exists msg.
Qed.

(** C1: when the engine answers with a report whose counts are not negative,
    every report [eslint] returns has conclusion [failure] exactly when the
    error count is positive, and conclusion [success] when there are no
    errors, whatever the warning count; and [eslint] does return a report
    whenever the workspace root is defined. *)
Theorem eslint_conclusion_failure_iff_errors (w : World)
    (files : list jsstring) (t : list event) (rep : lint_report) :
  executeOnFiles w eslint_opts files = resolved rep →
  0 ≤ errorCount rep → 0 ≤ warningCount rep →
  (∀ r t', eslint w files t = (Ret r, t') →
     (conclusion r = js "failure" ↔ 0 < errorCount rep)
     ∧ (errorCount rep = 0 → conclusion r = js "success"))
  ∧ (is_Some (GITHUB_WORKSPACE (env w)) →
     ∃ r t', eslint w files t = (Ret r, t')).
Proof.
  intros He _ _. split.
  - intros r t' Hr. destruct (eslint_report_of _ _ _ _ _ _ He Hr) as [anns ->].
    unfold report_of. cbn [conclusion].
    destruct (Z.ltb_spec 0 (errorCount rep)) as [Hpos|Hle].
    + split; [done|]. lia.
    + split; [|done]. split; [discriminate|lia].
  - intros [workspace Hws]. eexists _, _. by apply eslint_returns.
Qed.

Lemma eslint_conclusion_failure_iff_errors_witness :
  ∃ r t',
    eslint (sample_world (sample_pr [js "a.js"])
              (sample_report (js "/github/workspace/a.js") [1; 1; 1] 0 3))
      [js "a.js"] [] = (Ret r, t')
    ∧ conclusion r = js "success".
Proof.
  destruct (eslint_conclusion_failure_iff_errors
              (sample_world (sample_pr [js "a.js"])
                 (sample_report (js "/github/workspace/a.js") [1; 1; 1] 0 3))
              [js "a.js"] []
              {| results := [ {| filePath := js "/github/workspace/a.js";
                                 messages := sample_message <$> [1; 1; 1] |} ];
                 errorCount := 0; warningCount := 3 |}
              eq_refl ltac:(simpl; lia) ltac:(simpl; lia)) as [Hall Hex].
  destruct Hex as (r & t' & Hr); [by eexists|].
  exists r, t'. split; [exact Hr|].
  exact (proj2 (Hall r t' Hr) eq_refl).
Defined.

(** C2, as the code has it: in every report that [eslint] returns, the
    level of an annotation is [levels[severity]], which is [warning] for
    severity 1 and [failure] for severity 2; every diagnostic of the
    engine's report yields one annotation, in order, none is dropped; a
    severity-0 diagnostic yields an annotation whose level is the empty
    string.  [eslint] returns a report whenever the workspace root is
    defined; when it is not and the engine's report has a result, [eslint]
    throws and returns no annotation. *)
Theorem eslint_annotates_every_diagnostic (w : World)
    (files : list jsstring) (t : list event) (rep : lint_report) :
  executeOnFiles w eslint_opts files = resolved rep →
  (∀ r t', eslint w files t = (Ret r, t') →
     annotation_level <$> annotations (output r)
     = (fun msg => index levels (severity msg)) <$> diagnostics (results rep))
  ∧ (is_Some (GITHUB_WORKSPACE (env w)) →
     ∃ r t', eslint w files t = (Ret r, t'))
  ∧ (GITHUB_WORKSPACE (env w) = None → results rep ≠ [] →
     ∃ e t', eslint w files t = (Throw e, t'))
  ∧ index levels 1 = Some (js "warning")
  ∧ index levels 2 = Some (js "failure")
  ∧ index levels 0 = Some (js "").
Proof.
  intros He. rewrite eslint_run. cbv zeta. rewrite He.
  split; [|split; [|split; [|done]]].
  - intros r t'.
    destruct (GITHUB_WORKSPACE (env w)) as [workspace|];
      [|destruct (results rep) as [|x rs] eqn:Hrs]; intros [= <- _].
    + apply annotations_of_levels.
    + done.
  - intros [workspace ->]. by eexists _, _.
  - intros -> Hrs. destruct (results rep); [done|]. by eexists _, _.
Qed.

Lemma eslint_annotates_every_diagnostic_witness :
  ∃ r t',
    eslint (sample_world (sample_pr [js "a.js"])
              (sample_report (js "/github/workspace/a.js") [2; 1] 1 1))
      [js "a.js"] [] = (Ret r, t')
    ∧ annotation_level <$> annotations (output r)
      = [Some (js "failure"); Some (js "warning")].
Proof.
  destruct (eslint_annotates_every_diagnostic
              (sample_world (sample_pr [js "a.js"])
                 (sample_report (js "/github/workspace/a.js") [2; 1] 1 1))
              [js "a.js"] []
              {| results := [ {| filePath := js "/github/workspace/a.js";
                                 messages := sample_message <$> [2; 1] |} ];
                 errorCount := 1; warningCount := 1 |}
              eq_refl)
    as (Hl & Hret & _).
  destruct (Hret (mk_is_Some _ _ eq_refl)) as (r & t' & Hr).
  exists r, t'. split; [exact Hr|exact (Hl r t' Hr)].
Defined.

(** C2 fails as stated: a severity-0 diagnostic is annotated, with a blank
    level. *)
Lemma severity_zero_annotated_with_blank_level :
  severity (sample_message 0) = 0
  ∧ (eslint (sample_world (sample_pr [js "a.js"])
               (sample_report (js "/github/workspace/a.js") [0] 0 0))
       [js "a.js"] []).1
    = Ret {| conclusion := js "success";
             output :=
               {| title := js "ESLint check";
                  summary := js "0 error(s), 0 warning(s) found";
                  annotations :=
                    [ {| ann_path := js "a.js";
                         start_line := Some 3;
                         end_line := Some 3;
                         annotation_level := Some (js "");
                         ann_message := js "[semi] Missing semicolon." |} ] |} |}.
Proof. split; reflexivity. Qed.

(** C3, as the code has it: with a workspace root defined, [eslint] raises
    no error over any file path; each annotation's path is its file's path
    without its first [length root + 1] code units; for a file path made of
    the root, one separator and a remainder, that is the remainder. *)
Theorem eslint_rebases_by_dropping_root_length (w : World)
    (files : list jsstring) (t : list event) (rep : lint_report)
    (workspace : jsstring) :
  executeOnFiles w eslint_opts files = resolved rep →
  GITHUB_WORKSPACE (env w) = Some workspace →
  ∃ r t', eslint w files t = (Ret r, t')
    ∧ ann_path <$> annotations (output r)
      = mjoin ((fun res => (fun _ => drop (length workspace + 1) (filePath res))
                             <$> messages res) <$> results rep)
    ∧ (∀ res sep rest msg,
         res ∈ results rep → filePath res = workspace ++ sep :: rest →
         msg ∈ messages res → annotate rest msg ∈ annotations (output r)).
Proof.
  intros He Hws. eexists _, _. split; [by apply eslint_returns|].
  split; [apply annotations_of_paths|].
  intros res sep rest msg Hres Hpath Hmsg. cbn [output annotations report_of].
  rewrite <- (substring_root workspace rest sep), <- Hpath.
  by apply elem_of_annotations_of.
Qed.

Lemma eslint_rebases_by_dropping_root_length_witness :
  ∃ r t',
    eslint (sample_world (sample_pr [js "a/b.js"])
              (sample_report (js "/github/workspace/a/b.js") [2] 1 0))
      [js "a/b.js"] [] = (Ret r, t')
    ∧ ann_path <$> annotations (output r) = [js "a/b.js"].
Proof.
  destruct (eslint_rebases_by_dropping_root_length
              (sample_world (sample_pr [js "a/b.js"])
                 (sample_report (js "/github/workspace/a/b.js") [2] 1 0))
              [js "a/b.js"] []
              {| results := [ {| filePath := js "/github/workspace/a/b.js";
                                 messages := sample_message <$> [2] |} ];
                 errorCount := 1; warningCount := 0 |}
              (js "/github/workspace") eq_refl eq_refl)
    as (r & t' & Hr & Hp & _).
  exists r, t'. split; [exact Hr|exact Hp].
Defined.

(** C3 fails as stated: a file path outside the workspace root raises no
    error; the annotation gets a fragment of it as its path. *)
Lemma path_outside_workspace_not_rejected :
  ¬ (js "/github/workspace" `prefix_of` js "/srv/checkout/project/src/a.js")
  ∧ (eslint (sample_world (sample_pr [js "a.js"])
               (sample_report (js "/srv/checkout/project/src/a.js") [1] 0 1))
       [js "a.js"] []).1
    = Ret {| conclusion := js "success";
             output :=
               {| title := js "ESLint check";
                  summary := js "0 error(s), 1 warning(s) found";
                  annotations :=
                    [ {| ann_path := js "ect/src/a.js";
                         start_line := Some 3;
                         end_line := Some 3;
                         annotation_level := Some (js "warning");
                         ann_message := js "[semi] Missing semicolon." |} ] |} |}.
Proof.
  split; [|reflexivity]. intros [k Hk]. discriminate Hk.
Qed.

(** ** The check-run calls *)

Lemma createCheck_run (w : World) (t : list event) :
  createCheck w t
  = let r := request w (count_requests t) (check_runs_url w) (create_opts w t) in
    let t' := t ++ [HttpRequest (check_runs_url w) (create_opts w t) r] in
    match r with
    | resolved resp =>
        match data resp with
        | Some id => (Ret id, t')
        | None =>
            (Throw (TypeError "Cannot destructure property 'id' of 'data'"), t')
        end
    | rejected e => (Throw e, t')
    end.
Proof.
  unfold createCheck. run_step. fold (count_requests t) (create_opts w t).
  cbv zeta.
  destruct (request w (count_requests t) (check_runs_url w) (create_opts w t))
    as [resp|e]; [|done].
  by destruct (data resp).
Qed.

Lemma updateCheck_run (w : World) (id : option Z) (conclusion : jsstring)
    (output : option check_output) (t : list event) :
  updateCheck w id conclusion output t
  = let opts := update_opts w conclusion output t in
    let r := request w (count_requests t) (check_run_url w id) opts in
    (match r with resolved _ => Ret tt | rejected e => Throw e end,
     t ++ [HttpRequest (check_run_url w id) opts r]).
Proof.
  unfold updateCheck. run_step.
  fold (count_requests t) (update_opts w conclusion output t). cbv zeta.
  by destruct (request w (count_requests t) (check_run_url w id)
                 (update_opts w conclusion output t)).
Qed.

(** The handler of [run]'s [catch], followed by the handler of line 221. *)
Lemma catch_run (w : World) (id : option Z) (err : js_error) (t : list event) :
  try_catch
    (try_catch (throw err : M unit)
       (fun err => updateCheck w id (js "failure") None;; exitWithError err))
    exitWithError t
  = let opts := update_opts w (js "failure") None t in
    let r := request w (count_requests t) (check_run_url w id) opts in
    (Exit 1,
     t ++ [HttpRequest (check_run_url w id) opts r]
       ++ error_logs (match r with resolved _ => err | rejected e => e end)).
Proof.
  unfold try_catch, throw. rewrite bind_run, updateCheck_run. cbv zeta.
  destruct (request w (count_requests t) (check_run_url w id)
              (update_opts w (js "failure") None t));
    by rewrite exitWithError_run, <- app_assoc.
Qed.

Lemma run_run (w : World) :
  run w []
  = match createCheck w (prelude w) with
    | (Ret id, t) =>
        try_catch (run_try w id)
          (fun err => updateCheck w id (js "failure") None;; exitWithError err)
          (t ++ [created])
    | (Throw e, t) => (Throw e, t)
    | (Exit c, t) => (Exit c, t)
    end.
Proof.
  unfold run, log, emit. do 4 (rewrite bind_run; cbv beta iota).
  cbn [app]. fold (prelude w).
  destruct (createCheck w (prelude w)) as [[id|e|c] t]; [|done..].
  by rewrite bind_run.
Qed.

(** The run when the check run could not be opened. *)
Lemma main_create_failed (w : World) (e : js_error) (t : list event) :
  createCheck w (prelude w) = (Throw e, t) →
  main w = (Exit 1, t ++ error_logs e).
Proof.
  intros Hc. unfold main, try_catch. rewrite run_run, Hc.
  apply exitWithError_run.
Qed.

(** The run when the body of [try] returns. *)
Lemma main_try_returned (w : World) (id : option Z) (t1 t2 : list event) :
  createCheck w (prelude w) = (Ret id, t1) →
  run_try w id (t1 ++ [created]) = (Ret tt, t2) →
  main w = (Ret tt, t2).
Proof.
  intros Hc Ht. unfold main, try_catch. rewrite run_run, Hc.
  unfold try_catch. by rewrite Ht.
Qed.

(** The run when the body of [try] ends the process. *)
Lemma main_try_exited (w : World) (id : option Z) (t1 t2 : list event)
    (code : Z) :
  createCheck w (prelude w) = (Ret id, t1) →
  run_try w id (t1 ++ [created]) = (Exit code, t2) →
  main w = (Exit code, t2).
Proof.
  intros Hc Ht. unfold main, try_catch. rewrite run_run, Hc.
  unfold try_catch. by rewrite Ht.
Qed.

(** The run when the body of [try] throws. *)
Lemma main_try_threw (w : World) (id : option Z) (t1 t2 : list event)
    (err : js_error) :
  createCheck w (prelude w) = (Ret id, t1) →
  run_try w id (t1 ++ [created]) = (Throw err, t2) →
  main w
  = let opts := update_opts w (js "failure") None t2 in
    let r := request w (count_requests t2) (check_run_url w id) opts in
    (Exit 1,
     t2 ++ [HttpRequest (check_run_url w id) opts r]
        ++ error_logs (match r with resolved _ => err | rejected e => e end)).
Proof.
  intros Hc Ht. rewrite <- catch_run.
  unfold main, try_catch at 1. rewrite run_run, Hc.
  unfold try_catch, throw. by rewrite Ht.
Qed.

(** ** The body of [try], branch by branch *)

Lemma run_try_run (w : World) (id : option Z) (t : list event) :
  run_try w id t
  = match repo_token w with
    | None => (Throw (Error "Input required and not supplied: repo-token"), t)
    | Some token =>
    match context_repo w with
    | None => (Throw (Error "context.repo requires a GITHUB_REPOSITORY"), t)
    | Some repo =>
    let q := graphql w token (query_vars w repo) in
    let t1 := t ++ [GraphqlQuery token (query_vars w repo) q] in
    match q with
    | rejected e => (Throw e, t1)
    | resolved None =>
        (Throw (TypeError "Cannot read property 'commits' of null"), t1)
    | resolved (Some pr) =>
    match commits_nodes pr with
    | [] => (Throw (TypeError "Cannot read property 'commit' of undefined"), t1)
    | oid :: _ =>
    let t2 := t1 ++ query_logs pr oid in
    let targets := filesToLint (files_nodes pr) in
    if (length targets <? 1)%nat then (Ret tt, t2 ++ [nothing_to_lint])
    else
    match eslint w targets (t2 ++ lint_start_logs w targets) with
    | (Ret r, t4) =>
        let t5 := t4 ++ lint_end_logs r in
        let opts := update_opts w (conclusion r) (Some (output r)) t5 in
        let resp := request w (count_requests t5) (check_run_url w id) opts in
        (match resp with
         | resolved _ =>
             if bool_decide (conclusion r = js "failure")
             then Exit 78 else Ret tt
         | rejected e => Throw e
         end,
         t5 ++ [HttpRequest (check_run_url w id) opts resp])
    | (Throw e, t4) => (Throw e, t4)
    | (Exit code, t4) => (Exit code, t4)
    end
    end end end end.
Proof.
  unfold run_try. rewrite bind_run.
  destruct (repo_token w) as [token|]; [|done]. cbv beta iota delta [mret M_ret].
  rewrite bind_run.
  destruct (context_repo w) as [repo|]; [|done]. cbv beta iota.
  rewrite bind_run. unfold await_graphql. fold (query_vars w repo). cbv zeta.
  destruct (graphql w token (query_vars w repo)) as [[pr|]|e]; [|done..].
  cbn [settle]. cbv beta iota delta [mret M_ret].
  rewrite bind_run. cbv beta iota.
  rewrite bind_run.
  destruct (commits_nodes pr) as [|oid rest]; [done|]. cbv beta iota.
  unfold log, emit. do 2 (rewrite bind_run; cbv beta iota).
  rewrite <- (app_assoc _ [_] [_]). cbn [app]. fold (query_logs pr oid).
  destruct (length (filesToLint (files_nodes pr)) <? 1)%nat; [done|].
  unfold lint_start_logs.
  destruct (forallb (isFileOk w) (filesToLint (files_nodes pr)));
    cbn [negb app]; unfold mret, M_ret;
    do 2 (rewrite bind_run; cbv beta iota); rewrite ?app_nil_l;
    rewrite <- ?app_assoc; cbn [app]; rewrite bind_run;
    (destruct (eslint w _ _) as [[r|e|code] t4]; [|done..]);
    do 2 (rewrite bind_run; cbv beta iota);
    rewrite <- (app_assoc _ [_] [_]); cbn [app]; fold (lint_end_logs r);
    rewrite bind_run, updateCheck_run; cbv zeta;
    (destruct (request w _ _ _); [|done]);
    by destruct (bool_decide _).
Qed.


(** ** Runs along one branch *)

Lemma createCheck_opened (w : World) (resp : response) (id : option Z) :
  request w 0 (check_runs_url w) (create_opts w (prelude w)) = resolved resp →
  data resp = Some id →
  createCheck w (prelude w)
  = (Ret id,
     prelude w ++ [HttpRequest (check_runs_url w) (create_opts w (prelude w))
                     (resolved resp)]).
Proof.
  intros Hr Hd. rewrite createCheck_run. cbv zeta.
  change (count_requests (prelude w)) with 0%nat. by rewrite Hr, Hd.
Qed.

Lemma run_try_query_failed (w : World) (id : option Z) (t : list event)
    (token : jsstring) (repo : jsstring * jsstring) (e : js_error) :
  repo_token w = Some token → context_repo w = Some repo →
  graphql w token (query_vars w repo) = rejected e →
  run_try w id t
  = (Throw e, t ++ [GraphqlQuery token (query_vars w repo) (rejected e)]).
Proof.
  intros Ht Hr Hq. rewrite run_try_run, Ht, Hr. cbv zeta. by rewrite Hq.
Qed.

Lemma run_try_engine_crashed (w : World) (id : option Z) (t : list event)
    (token : jsstring) (repo : jsstring * jsstring) (pr : pull_request)
    (oid : jsstring) (rest : list jsstring) (e : js_error) :
  repo_token w = Some token → context_repo w = Some repo →
  graphql w token (query_vars w repo) = resolved (Some pr) →
  commits_nodes pr = oid :: rest →
  filesToLint (files_nodes pr) ≠ [] →
  executeOnFiles w eslint_opts (filesToLint (files_nodes pr)) = rejected e →
  ∃ t', run_try w id t = (Throw e, t').
Proof.
  intros Ht Hr Hq Hc Hf He. rewrite run_try_run, Ht, Hr. cbv zeta.
  rewrite Hq, Hc. destruct (filesToLint (files_nodes pr)) as [|p ps] eqn:E;
    [done|].
  cbn [length Nat.ltb Nat.leb]. rewrite eslint_run. cbv zeta. rewrite He.
  by eexists.
Qed.

Lemma run_try_normalizer_failed (w : World) (id : option Z) (t : list event)
    (token : jsstring) (repo : jsstring * jsstring) (pr : pull_request)
    (oid : jsstring) (rest : list jsstring) (rep : lint_report) :
  repo_token w = Some token → context_repo w = Some repo →
  graphql w token (query_vars w repo) = resolved (Some pr) →
  commits_nodes pr = oid :: rest →
  filesToLint (files_nodes pr) ≠ [] →
  executeOnFiles w eslint_opts (filesToLint (files_nodes pr)) = resolved rep →
  GITHUB_WORKSPACE (env w) = None → results rep ≠ [] →
  ∃ e t', run_try w id t = (Throw e, t').
Proof.
  intros Ht Hr Hq Hc Hf He Hws Hres. rewrite run_try_run, Ht, Hr. cbv zeta.
  rewrite Hq, Hc. destruct (filesToLint (files_nodes pr)) as [|p ps] eqn:E;
    [done|].
  cbn [length Nat.ltb Nat.leb]. rewrite eslint_run. cbv zeta.
  rewrite He, Hws. destruct (results rep); [done|]. by eexists _, _.
Qed.

Lemma error_logs_are_logs (e : js_error) :
  Forall (fun ev => is_log ev = true) (error_logs e).
Proof.
  unfold error_logs. destruct (err_data e) as [[|c d]|]; by repeat constructor.
Qed.

(** C7: once the check run is open, an error raised in the body of [try],
    whatever raised it, is followed by one completing update of that check
    run, with conclusion [failure] and no output, then by log lines only, and
    the process ends with status 1, whether the update got through or not.
    The update is a [PATCH] sent to the address of the check runs of the
    repository followed by [/] and the id that the answer to the creation
    carried. *)
Theorem error_after_open_fails_the_check_and_exits_1 (w : World)
    (id : option Z) (t1 t2 : list event) (err : js_error) :
  createCheck w (prelude w) = (Ret id, t1) →
  run_try w id (t1 ++ [created]) = (Throw err, t2) →
  ∃ address copts created_resp url opts resp logs,
    t1 = prelude w ++ [HttpRequest address copts (resolved created_resp)]
    ∧ method copts = POST
    ∧ address = js "https://api.github.com/repos/"
                ++ interp_undefined (GITHUB_REPOSITORY (env w))
                ++ js "/check-runs"
    ∧ data created_resp = Some id
    ∧ main w = (Exit 1, t2 ++ [HttpRequest url opts resp] ++ logs)
    ∧ url = (js "https://api.github.com/repos/"
             ++ interp_undefined (GITHUB_REPOSITORY (env w))
             ++ js "/check-runs")
            ++ js "/"
            ++ match id with
               | Some n => Number_toString n
               | None => js "undefined"
               end
    ∧ method opts = PATCH
    ∧ status (body opts) = js "completed"
    ∧ body_conclusion (body opts) = Some (js "failure")
    ∧ body_output (body opts) = None
    ∧ Forall (fun ev => is_log ev = true) logs
    ∧ exit_status (main w).1 = 1.
Proof.
  intros Hc Ht. rewrite (main_try_threw w id t1 t2 err Hc Ht). cbv zeta.
  rewrite createCheck_run in Hc. cbv zeta in Hc.
  destruct (request w (count_requests (prelude w)) (check_runs_url w)
              (create_opts w (prelude w))) as [created_resp|e];
    [|discriminate Hc].
  destruct (data created_resp) as [id'|] eqn:Hd; [|discriminate Hc].
  injection Hc as -> <-.
  eexists _, _, created_resp, _, _, _, _.
  split; [reflexivity|]. split; [reflexivity|]. split; [reflexivity|].
  split; [exact Hd|]. split; [reflexivity|].
  split; [by destruct id|].
  repeat split. apply error_logs_are_logs.
Qed.

Lemma error_after_open_fails_the_check_and_exits_1_witness :
  ∃ url opts resp logs,
    main world_engine_crashes
    = (Exit 1,
       (run_try world_engine_crashes (Some 42)
          ((createCheck world_engine_crashes
              (prelude world_engine_crashes)).2 ++ [created])).2
       ++ [HttpRequest url opts resp] ++ logs)
    ∧ url = js "https://api.github.com/repos/octo/repo/check-runs/42".
Proof.
  destruct (error_after_open_fails_the_check_and_exits_1 world_engine_crashes
              (Some 42) _ _ _
              ltac:(vm_compute; reflexivity) ltac:(vm_compute; reflexivity))
    as (address & copts & created_resp & url & opts & resp & logs
        & _ & _ & _ & _ & Hm & Hu & _).
  exists url, opts, resp, logs. split; [exact Hm|exact Hu].
Defined.

(** C4 fails as stated: the check run is created before the query is made,
    and completed as failed once the query has failed. *)
Lemma query_failure_follows_check_creation :
  graphql world_query_fails (js "t0ken")
    (query_vars world_query_fails (js "octo", js "repo"))
  = rejected (Error "connect ETIMEDOUT")
  ∧ exit_status (main world_query_fails).1 = 1
  ∧ kind_of <$> (main world_query_fails).2
    = [ a_log; a_log; a_log; a_creation; a_log; a_query; an_update; a_log ].
Proof. repeat split. Qed.

(** C4, as the code has it: the query is made only once the check run is
    open, for a run that could not open it makes no query; when the check
    run is open and the query fails, the trace is the creation of the check
    run, the failed query, a completing update of that check run with
    status [completed], conclusion [failure] and no output, and log lines;
    the process ends with status 1.  The update is a [PATCH] sent to the
    address of the check runs of the repository followed by [/] and the id
    that the answer to the creation carried. *)
Theorem query_failure_fails_the_open_check_and_exits_1 (w : World) :
  (∀ e t, createCheck w (prelude w) = (Throw e, t) →
          Forall (fun ev => kind_of ev ≠ a_query) (main w).2)
  ∧ (∀ created_resp id token repo e,
       request w 0 (check_runs_url w) (create_opts w (prelude w))
         = resolved created_resp →
       data created_resp = Some id →
       repo_token w = Some token → context_repo w = Some repo →
       graphql w token (query_vars w repo) = rejected e →
       ∃ address copts url opts resp logs,
         main w
         = (Exit 1,
            prelude w
            ++ [ HttpRequest address copts (resolved created_resp);
                 created;
                 GraphqlQuery token (query_vars w repo) (rejected e);
                 HttpRequest url opts resp ]
            ++ logs)
         ∧ method copts = POST
         ∧ status (body copts) = js "in_progress"
         ∧ address = js "https://api.github.com/repos/"
                     ++ interp_undefined (GITHUB_REPOSITORY (env w))
                     ++ js "/check-runs"
         ∧ url = (js "https://api.github.com/repos/"
                  ++ interp_undefined (GITHUB_REPOSITORY (env w))
                  ++ js "/check-runs")
                 ++ js "/"
                 ++ match id with
                    | Some n => Number_toString n
                    | None => js "undefined"
                    end
         ∧ method opts = PATCH
         ∧ status (body opts) = js "completed"
         ∧ body_conclusion (body opts) = Some (js "failure")
         ∧ body_output (body opts) = None
         ∧ Forall (fun ev => is_log ev = true) logs
         ∧ exit_status (main w).1 = 1).
Proof.
  split.
  - intros e t Hc. rewrite (main_create_failed w e t Hc). cbn [snd].
    rewrite createCheck_run in Hc. cbv zeta in Hc.
    assert (t = prelude w
                ++ [HttpRequest (check_runs_url w) (create_opts w (prelude w))
                      (request w (count_requests (prelude w))
                         (check_runs_url w) (create_opts w (prelude w)))])
      as ->.
    { destruct (request w _ _ _) as [resp|]; [destruct (data resp)|];
        congruence. }
    repeat (apply Forall_app; split); [by repeat constructor..|].
    eapply Forall_impl; [apply error_logs_are_logs|]. by intros [].
  - intros created_resp id token repo e Hr Hd Ht Hrepo Hq.
    pose proof (createCheck_opened w created_resp id Hr Hd) as Hc.
    rewrite (main_try_threw w id _ _ e Hc
               (run_try_query_failed w id _ token repo e Ht Hrepo Hq)).
    cbv zeta. eexists _, _, _, _, _, _. split.
    + rewrite <- !app_assoc. cbn [app]. reflexivity.
    + split; [reflexivity|]. split; [reflexivity|]. split; [reflexivity|].
      split; [by destruct id|].
      repeat split. apply error_logs_are_logs.
Qed.

Lemma query_failure_fails_the_open_check_and_exits_1_witness :
  ∃ address copts url opts resp logs,
    (main world_query_fails).2
    = prelude world_query_fails
      ++ [ HttpRequest address copts (resolved {| data := Some (Some 42) |});
           created;
           GraphqlQuery (js "t0ken")
             (query_vars world_query_fails (js "octo", js "repo"))
             (rejected (Error "connect ETIMEDOUT"));
           HttpRequest url opts resp ]
      ++ logs
    ∧ url = js "https://api.github.com/repos/octo/repo/check-runs/42"
    ∧ exit_status (main world_query_fails).1 = 1.
Proof.
  destruct (proj2 (query_failure_fails_the_open_check_and_exits_1
                     world_query_fails)
              {| data := Some (Some 42) |} (Some 42) (js "t0ken")
              (js "octo", js "repo") (Error "connect ETIMEDOUT")
              eq_refl eq_refl eq_refl eq_refl eq_refl)
    as (address & copts & url & opts & resp & logs
        & Hm & _ & _ & _ & Hu & _ & _ & _ & _ & _ & H).
  exists address, copts, url, opts, resp, logs.
  split; [by rewrite Hm|]. split; [exact Hu|exact H].
Defined.

(** C6: when the check run is open, the query answers and no changed file is
    lintable, the run sends no request after the creation, runs no engine,
    logs the notice last and returns: the process ends with status 0. *)
Theorem nothing_to_lint_ends_quietly (w : World) (created_resp : response)
    (id : option Z) (token : jsstring) (repo : jsstring * jsstring)
    (pr : pull_request) (oid : jsstring) (rest : list jsstring) :
  request w 0 (check_runs_url w) (create_opts w (prelude w))
    = resolved created_resp →
  data created_resp = Some id →
  repo_token w = Some token → context_repo w = Some repo →
  graphql w token (query_vars w repo) = resolved (Some pr) →
  commits_nodes pr = oid :: rest →
  filesToLint (files_nodes pr) = [] →
  main w
  = (Ret tt,
     prelude w
     ++ [ HttpRequest (check_runs_url w) (create_opts w (prelude w))
            (resolved created_resp);
          created;
          GraphqlQuery token (query_vars w repo) (resolved (Some pr)) ]
     ++ query_logs pr oid ++ [nothing_to_lint])
  ∧ exit_status (main w).1 = 0
  ∧ Forall (fun ev => is_engine_run ev = false ∧ is_update ev = false)
      (main w).2
  ∧ last (main w).2 = Some nothing_to_lint.
Proof.
  intros Hr Hd Ht Hrepo Hq Hc Hf.
  pose proof (createCheck_opened w created_resp id Hr Hd) as Hcreate.
  assert (main w
          = (Ret tt,
             prelude w
             ++ [ HttpRequest (check_runs_url w) (create_opts w (prelude w))
                    (resolved created_resp);
                  created;
                  GraphqlQuery token (query_vars w repo) (resolved (Some pr)) ]
             ++ query_logs pr oid ++ [nothing_to_lint])) as ->.
  { apply (main_try_returned w id _ _ Hcreate).
    rewrite run_try_run, Ht, Hrepo. cbv zeta. rewrite Hq, Hc, Hf.
    cbn [length Nat.ltb Nat.leb]. by rewrite <- !app_assoc. }
  split; [done|]. split; [done|]. split.
  - cbn [snd]. repeat (apply Forall_app; split); repeat constructor.
  - cbn [snd]. by rewrite !app_assoc, last_snoc.
Qed.

Lemma nothing_to_lint_ends_quietly_witness :
  exit_status (main world_nothing_to_lint).1 = 0
  ∧ last (main world_nothing_to_lint).2 = Some nothing_to_lint.
Proof.
  destruct (nothing_to_lint_ends_quietly world_nothing_to_lint
              {| data := Some (Some 42) |} (Some 42) (js "t0ken")
              (js "octo", js "repo")
              {| files_nodes := [ {| path := js "README.md" |} ];
                 commits_nodes := [js "0a1b2c3"] |}
              (js "0a1b2c3") []
              eq_refl eq_refl eq_refl eq_refl eq_refl eq_refl eq_refl)
    as (_ & H0 & _ & Hl).
  split; [exact H0|exact Hl].
Defined.

(** ** The five ways a run can go *)

Lemma path_logs_quiet (workspace : jsstring) (rs : list lint_result) :
  quiet (path_logs workspace rs).
Proof. unfold quiet, path_logs. apply Forall_fmap, Forall_true. done. Qed.

Lemma lint_start_logs_quiet (w : World) (targets : list jsstring) :
  quiet (lint_start_logs w targets).
Proof.
  unfold quiet, lint_start_logs. destruct (forallb _ _); by repeat constructor.
Qed.

Lemma error_logs_quiet (e : js_error) : quiet (error_logs e).
Proof.
  unfold quiet, error_logs. destruct (err_data e) as [[|c d]|];
    by repeat constructor.
Qed.

Lemma quiet_app (ev1 ev2 : list event) :
  quiet ev1 → quiet ev2 → quiet (ev1 ++ ev2).
Proof. intros H1 H2. by apply Forall_app. Qed.

Ltac quiet_steps :=
  repeat first
    [ assumption
    | apply lint_start_logs_quiet
    | apply path_logs_quiet
    | apply error_logs_quiet
    | apply quiet_app
    | (apply Forall_cons; split; [reflexivity|])
    | apply Forall_nil_2 ].

Lemma eslint_shape (w : World) (files : list jsstring) (t t' : list event)
    (o : outcome report) :
  eslint w files t = (o, t') →
  ∃ ev, t' = t ++ ev ∧ quiet ev
    ∧ match o with
      | Ret r => conclusion r = js "failure" ∨ conclusion r = js "success"
      | Throw _ => True
      | Exit _ => False
      end.
Proof.
  rewrite eslint_run. cbv zeta.
  destruct (executeOnFiles w eslint_opts files) as [rep|e].
  - assert (∀ anns, conclusion (report_of rep anns) = js "failure"
                    ∨ conclusion (report_of rep anns) = js "success") as Hc.
    { intros anns. unfold report_of. cbn [conclusion].
      destruct (0 <? errorCount rep); auto. }
    destruct (GITHUB_WORKSPACE (env w)) as [workspace|];
      [|destruct (results rep)]; intros [= <- <-].
    + eexists. split; [by rewrite <- app_assoc|]. split; [|apply Hc].
      apply quiet_app; [by repeat constructor|apply path_logs_quiet].
    + eexists. split; [done|]. split; [by repeat constructor|apply Hc].
    + eexists. split; [done|]. split; [by repeat constructor|done].
  - intros [= <- <-]. eexists. split; [done|]. split; [by repeat constructor|done].
Qed.

Lemma run_try_shape (w : World) (id : option Z) (t t' : list event)
    (o : outcome unit) :
  run_try w id t = (o, t') →
  (∃ ev, t' = t ++ ev ∧ quiet ev ∧ (o = Ret tt ∨ ∃ e, o = Throw e))
  ∨ (∃ ev r resp,
       t' = t ++ ev ++ [HttpRequest (check_run_url w id)
                          (update_opts w (conclusion r) (Some (output r))
                             (t ++ ev)) resp]
       ∧ quiet ev
       ∧ (conclusion r = js "failure" ∨ conclusion r = js "success")
       ∧ o = match resp with
             | resolved _ =>
                 if bool_decide (conclusion r = js "failure")
                 then Exit 78 else Ret tt
             | rejected e => Throw e
             end).
Proof.
  rewrite run_try_run.
  destruct (repo_token w) as [token|];
    [|intros [= <- <-]; left; exists []; rewrite app_nil_r;
      repeat split; [constructor|eauto]].
  destruct (context_repo w) as [repo|];
    [|intros [= <- <-]; left; exists []; rewrite app_nil_r;
      repeat split; [constructor|eauto]].
  cbv zeta.
  destruct (graphql w token (query_vars w repo)) as [[pr|]|e];
    [|intros [= <- <-]; left; eexists; repeat split;
      [by repeat constructor|eauto]..].
  destruct (commits_nodes pr) as [|oid rest];
    [intros [= <- <-]; left; eexists; repeat split;
      [by repeat constructor|eauto]|].
  destruct (length (filesToLint (files_nodes pr)) <? 1)%nat.
  { intros [= <- <-]. left. eexists. split; [by rewrite <- !app_assoc|].
    split; [by repeat constructor|eauto]. }
  destruct (eslint w _ _) as [[r|e|code] t4] eqn:He;
    apply eslint_shape in He as (ev & -> & Hev & Ho); [| |done].
  - intros [= <- <-]. right.
    exists ([GraphqlQuery token (query_vars w repo) (resolved (Some pr))]
            ++ query_logs pr oid
            ++ lint_start_logs w (filesToLint (files_nodes pr))
            ++ ev ++ lint_end_logs r), r.
    eexists. split; [|split; [|done]].
    + rewrite <- !app_assoc. reflexivity.
    + quiet_steps.
  - intros [= <- <-]. left.
    exists ([GraphqlQuery token (query_vars w repo) (resolved (Some pr))]
            ++ query_logs pr oid
            ++ lint_start_logs w (filesToLint (files_nodes pr)) ++ ev).
    split; [by rewrite <- !app_assoc|]. split; [|eauto].
    quiet_steps.
Qed.

Lemma main_cases (w : World) :
  ∃ r0,
    let opened :=
      prelude w ++ [HttpRequest (check_runs_url w)
                      (create_opts w (prelude w)) r0] in
    (∃ e, main w = (Exit 1, opened ++ error_logs e))
    ∨ (∃ ev, quiet ev ∧ main w = (Ret tt, opened ++ ev))
    ∨ (∃ id ev t resp e,
         quiet ev
         ∧ main w
           = (Exit 1,
              opened ++ ev
              ++ [HttpRequest (check_run_url w id)
                    (update_opts w (js "failure") None t) resp]
              ++ error_logs e))
    ∨ (∃ id ev r t resp,
         quiet ev
         ∧ (conclusion r = js "failure" ∨ conclusion r = js "success")
         ∧ main w
           = (if bool_decide (conclusion r = js "failure")
              then Exit 78 else Ret tt,
              opened ++ ev
              ++ [HttpRequest (check_run_url w id)
                    (update_opts w (conclusion r) (Some (output r)) t)
                    (resolved resp)]))
    ∨ (∃ id ev r t e t' resp e',
         quiet ev
         ∧ main w
           = (Exit 1,
              opened ++ ev
              ++ [HttpRequest (check_run_url w id)
                    (update_opts w (conclusion r) (Some (output r)) t)
                    (rejected e);
                  HttpRequest (check_run_url w id)
                    (update_opts w (js "failure") None t') resp]
              ++ error_logs e')).
Proof.
  exists (request w 0 (check_runs_url w) (create_opts w (prelude w))).
  cbv zeta.
  pose proof (createCheck_run w (prelude w)) as Hc. cbv zeta in Hc.
  change (count_requests (prelude w)) with 0%nat in Hc.
  destruct (request w 0 (check_runs_url w) (create_opts w (prelude w)))
    as [resp0|e0]; [destruct (data resp0) as [id|]|].
  2,3: left; eexists; by apply main_create_failed.
  right.
  destruct (run_try w id
              ((prelude w ++ [HttpRequest (check_runs_url w)
                                (create_opts w (prelude w)) (resolved resp0)])
               ++ [created])) as [o t2] eqn:Ht.
  pose proof Ht as Hshape.
  apply run_try_shape in Hshape
    as [(ev & -> & Hev & Ho)|(ev & r & resp & -> & Hev & Hr & ->)].
  - destruct Ho as [->|[e ->]].
    + left. exists (created :: ev). split; [by constructor|].
      rewrite (main_try_returned w id _ _ Hc Ht).
      by rewrite <- !app_assoc.
    + right; left. rewrite (main_try_threw w id _ _ e Hc Ht). cbv zeta.
      eexists id, (created :: ev), _, _, _. split; [by constructor|].
      by rewrite <- !app_assoc.
  - right; right. destruct resp as [resp|e].
    + left. exists id, (created :: ev), r. eexists _, resp.
      split; [by constructor|]. split; [done|].
      destruct (bool_decide (conclusion r = js "failure")).
      * rewrite (main_try_exited w id _ _ 78 Hc Ht). by rewrite <- !app_assoc.
      * rewrite (main_try_returned w id _ _ Hc Ht). by rewrite <- !app_assoc.
    + right. rewrite (main_try_threw w id _ _ e Hc Ht). cbv zeta.
      exists id, (created :: ev), r. eexists _, e, _, _, _.
      split; [by constructor|]. by rewrite <- !app_assoc.
Qed.

(** ** Exit status and reported conclusion *)

Lemma quiet_Forall (P : event → Prop) (ev : list event) :
  (∀ e, is_request e = false → P e) → quiet ev → Forall P ev.
Proof. intros HP Hq. exact (Forall_impl _ _ _ Hq HP). Qed.

Lemma prelude_quiet (w : World) : quiet (prelude w).
Proof. by repeat constructor. Qed.







(** ** The commit the requests name *)

Lemma main_requests_name_env_sha (w : World) :
  Forall (sha_of_env w) (main w).2.
Proof.
  assert (∀ ev, quiet ev → Forall (sha_of_env w) ev) as Hq.
  { intros ev. apply quiet_Forall. by intros []. }
  destruct (main_cases w) as (r0 & Hcases). cbv zeta in Hcases.
  destruct Hcases
    as [(e1 & Hm)|[(ev & Hev & Hm)|[(id & ev & t & resp & e1 & Hev & Hm)
       |[(id & ev & r & t & resp & Hev & Hr & Hm)
        |(id & ev & r & t & e1 & t' & resp & e2 & Hev & Hm)]]]];
    rewrite Hm; cbn [snd];
    repeat first
      [ (apply Hq; quiet_steps; fail)
      | apply Hq, prelude_quiet
      | apply Forall_app; split
      | (apply Forall_cons; split; [reflexivity|])
      | apply Forall_nil_2 ].
Qed.

Lemma count_requests_of (t : list event) :
  count_requests t = length (requests_of t).
Proof.
  unfold count_requests, requests_of.
  induction t as [|[] t IH]; simpl; by rewrite ?IH.
Qed.

Lemma requests_of_app (t u : list event) :
  requests_of (t ++ u) = requests_of t ++ requests_of u.
Proof. apply omap_app. Qed.

Lemma requests_of_quiet (ev : list event) : quiet ev → requests_of ev = [].
Proof.
  unfold requests_of. induction 1 as [|[] ev He Hev IH]; simpl; try done.
Qed.

Lemma sim_refl (t : list event) : sim t t.
Proof. done. Qed.

Lemma sim_app (t t' u u' : list event) :
  sim t t' → sim u u' → sim (t ++ u) (t' ++ u').
Proof.
  intros [Hl Hr] [Hl' Hr']. split.
  - rewrite !length_app. lia.
  - rewrite !requests_of_app. congruence.
Qed.

Lemma sim_quiet (u u' : list event) :
  quiet u → quiet u' → length u = length u' → sim u u'.
Proof.
  intros Hu Hu' Hl. split; [done|]. by rewrite !requests_of_quiet.
Qed.

Lemma sim_count (t t' : list event) :
  sim t t' → count_requests t = count_requests t'.
Proof. intros [_ Hr]. by rewrite !count_requests_of, Hr. Qed.

Lemma sim_update_opts (w : World) (c : jsstring) (out : option check_output)
    (t t' : list event) :
  sim t t' → update_opts w c out t = update_opts w c out t'.
Proof. intros [Hl _]. unfold update_opts. by rewrite Hl. Qed.

Ltac sim_steps :=
  repeat first
    [ assumption
    | apply sim_refl
    | apply sim_app
    | (apply sim_quiet; [quiet_steps; fail|quiet_steps; fail|reflexivity]) ].

Lemma run_try_with_oids (f : jsstring → jsstring) (w : World) (id : option Z)
    (t t' : list event) :
  sim t t' →
  (run_try (with_oids f w) id t').1 = (run_try w id t).1
  ∧ sim (run_try w id t).2 (run_try (with_oids f w) id t').2.
Proof.
  intros Hsim. rewrite !run_try_run.
  change (eslint (with_oids f w)) with (eslint w).
  change (lint_start_logs (with_oids f w)) with (lint_start_logs w).
  change (update_opts (with_oids f w)) with (update_opts w).
  change (check_run_url (with_oids f w)) with (check_run_url w).
  change (query_vars (with_oids f w)) with (query_vars w).
  cbn [with_oids repo_token context_repo graphql request].
  destruct (repo_token w) as [token|]; [|done].
  destruct (context_repo w) as [repo|]; [|done].
  cbv zeta.
  destruct (graphql w token (query_vars w repo)) as [[pr|]|e];
    [|split; [done|cbn [snd]; sim_steps]..].
  cbn [commits_nodes files_nodes].
  destruct (commits_nodes pr) as [|oid rest];
    [split; [done|cbn [snd]; sim_steps]|].
  rewrite fmap_cons.
  destruct (length (filesToLint (files_nodes pr)) <? 1)%nat;
    [split; [done|cbn [snd]; sim_steps]|].
  rewrite !eslint_run. cbv zeta.
  set (targets := filesToLint (files_nodes pr)).
  destruct (executeOnFiles w eslint_opts targets) as [rep|e];
    [|split; [done|cbn [snd]; sim_steps]].
  assert (∀ r v v', sim v v' →
    (match request w (count_requests (v' ++ lint_end_logs r))
             (check_run_url w id)
             (update_opts w (conclusion r) (Some (output r))
                (v' ++ lint_end_logs r))
     with
     | resolved _ =>
         if bool_decide (conclusion r = js "failure") then Exit 78 else Ret ()
     | rejected e => Throw e
     end,
     (v' ++ lint_end_logs r)
     ++ [HttpRequest (check_run_url w id)
           (update_opts w (conclusion r) (Some (output r))
              (v' ++ lint_end_logs r))
           (request w (count_requests (v' ++ lint_end_logs r))
              (check_run_url w id)
              (update_opts w (conclusion r) (Some (output r))
                 (v' ++ lint_end_logs r)))]).1
    = (match request w (count_requests (v ++ lint_end_logs r))
             (check_run_url w id)
             (update_opts w (conclusion r) (Some (output r))
                (v ++ lint_end_logs r))
     with
     | resolved _ =>
         if bool_decide (conclusion r = js "failure") then Exit 78 else Ret ()
     | rejected e => Throw e
     end,
     (v ++ lint_end_logs r)
     ++ [HttpRequest (check_run_url w id)
           (update_opts w (conclusion r) (Some (output r))
              (v ++ lint_end_logs r))
           (request w (count_requests (v ++ lint_end_logs r))
              (check_run_url w id)
              (update_opts w (conclusion r) (Some (output r))
                 (v ++ lint_end_logs r)))]).1
    ∧ sim
        ((v ++ lint_end_logs r)
         ++ [HttpRequest (check_run_url w id)
               (update_opts w (conclusion r) (Some (output r))
                  (v ++ lint_end_logs r))
               (request w (count_requests (v ++ lint_end_logs r))
                  (check_run_url w id)
                  (update_opts w (conclusion r) (Some (output r))
                     (v ++ lint_end_logs r)))])
        ((v' ++ lint_end_logs r)
         ++ [HttpRequest (check_run_url w id)
               (update_opts w (conclusion r) (Some (output r))
                  (v' ++ lint_end_logs r))
               (request w (count_requests (v' ++ lint_end_logs r))
                  (check_run_url w id)
                  (update_opts w (conclusion r) (Some (output r))
                     (v' ++ lint_end_logs r)))])) as Hupdate.
  { intros r v v' Hv.
    assert (sim (v ++ lint_end_logs r) (v' ++ lint_end_logs r)) as Hv'
      by sim_steps.
    rewrite <- (sim_count _ _ Hv'), <- (sim_update_opts w _ _ _ _ Hv').
    split; [done|]. sim_steps. }
  destruct (GITHUB_WORKSPACE (env w)) as [workspace|];
    [|destruct (results rep)].
  - apply Hupdate. sim_steps.
  - apply Hupdate. sim_steps.
  - split; [done|]. cbn [snd]. sim_steps.
Qed.

Lemma main_with_oids (f : jsstring → jsstring) (w : World) :
  (main (with_oids f w)).1 = (main w).1
  ∧ sim (main w).2 (main (with_oids f w)).2.
Proof.
  destruct (createCheck w (prelude w)) as [[id|e|c] t1] eqn:Hc.
  - destruct (run_try_with_oids f w id _ _ (sim_refl (t1 ++ [created])))
      as [Ho Hsim].
    destruct (run_try w id (t1 ++ [created])) as [o u] eqn:Ht.
    destruct (run_try (with_oids f w) id (t1 ++ [created])) as [o' u'] eqn:Ht'.
    cbn [fst snd] in Ho, Hsim. subst o'.
    destruct o as [[]|e|c].
    + rewrite (main_try_returned w id _ _ Hc Ht).
      by rewrite (main_try_returned (with_oids f w) id _ _ Hc Ht').
    + rewrite (main_try_threw w id _ _ e Hc Ht).
      rewrite (main_try_threw (with_oids f w) id _ _ e Hc Ht').
      cbv zeta.
      change (update_opts (with_oids f w)) with (update_opts w).
      change (check_run_url (with_oids f w)) with (check_run_url w).
      cbn [with_oids request].
      rewrite <- (sim_count _ _ Hsim), <- (sim_update_opts w _ _ _ _ Hsim).
      split; [done|]. cbn [snd]. sim_steps.
    + rewrite (main_try_exited w id _ _ c Hc Ht).
      by rewrite (main_try_exited (with_oids f w) id _ _ c Hc Ht').
  - rewrite (main_create_failed w e t1 Hc).
    by rewrite (main_create_failed (with_oids f w) e t1 Hc).
  - rewrite createCheck_run in Hc. cbv zeta in Hc.
    destruct (request w _ _ _) as [resp|]; [destruct (data resp)|]; done.
Qed.

Lemma main_logs_query_oid (w : World) (created_resp : response)
    (id : option Z) (token : jsstring) (repo : jsstring * jsstring)
    (pr : pull_request) (oid : jsstring) (rest : list jsstring) :
  request w 0 (check_runs_url w) (create_opts w (prelude w))
    = resolved created_resp →
  data created_resp = Some id →
  repo_token w = Some token → context_repo w = Some repo →
  graphql w token (query_vars w repo) = resolved (Some pr) →
  commits_nodes pr = oid :: rest →
  Log log_info [LStr (js "Commit from GraphQL:"); LStr oid] ∈ (main w).2.
Proof.
  intros Hr Hd Htok Hrepo Hq Hcom.
  pose proof (createCheck_opened w created_resp id Hr Hd) as Hc.
  set (t1 := prelude w ++ _) in Hc.
  assert (∃ tail, (run_try w id (t1 ++ [created])).2
                  = ((t1 ++ [created])
                     ++ [GraphqlQuery token (query_vars w repo)
                           (resolved (Some pr))])
                    ++ query_logs pr oid ++ tail) as [tail Htail].
  { rewrite run_try_run, Htok, Hrepo. cbv zeta. rewrite Hq, Hcom.
    destruct (length (filesToLint (files_nodes pr)) <? 1)%nat.
    { eexists. cbn [snd]. by rewrite <- !app_assoc. }
    destruct (eslint w _ _) as [o t4] eqn:He.
    apply eslint_shape in He as (ev & -> & _ & _).
    destruct o as [r|e|c]; eexists; cbn [snd]; rewrite <- !app_assoc;
      reflexivity. }
  assert (∃ tail', (main w).2 = (run_try w id (t1 ++ [created])).2 ++ tail')
    as [tail' ->].
  { destruct (run_try w id (t1 ++ [created])) as [[[]|e|c] t2] eqn:Ht.
    - rewrite (main_try_returned w id _ _ Hc Ht). exists []. by rewrite app_nil_r.
    - rewrite (main_try_threw w id _ _ e Hc Ht). cbv zeta. by eexists.
    - rewrite (main_try_exited w id _ _ c Hc Ht). exists []. by rewrite app_nil_r. }
  rewrite Htail. unfold query_logs.
  apply elem_of_app; left. apply elem_of_app; right. apply list_elem_of_here.
Qed.

(** C9: every request a run sends, the one that creates the check run and
    the ones that complete it, names the commit identifier of the
    environment as its head commit; replacing the commit oids the query
    returns changes neither the requests sent nor the way the run ends; the
    oid of the first commit node is written to the log once the query has
    answered. *)
Theorem check_requests_name_env_sha_not_query_oid (w : World)
    (f : jsstring → jsstring) :
  (∀ url opts resp,
     HttpRequest url opts resp ∈ (main w).2 →
     head_sha (body opts) = GITHUB_SHA (env w))
  ∧ requests_of (main (with_oids f w)).2 = requests_of (main w).2
  ∧ (main (with_oids f w)).1 = (main w).1
  ∧ (∀ created_resp id token repo pr oid rest,
       request w 0 (check_runs_url w) (create_opts w (prelude w))
         = resolved created_resp →
       data created_resp = Some id →
       repo_token w = Some token → context_repo w = Some repo →
       graphql w token (query_vars w repo) = resolved (Some pr) →
       commits_nodes pr = oid :: rest →
       Log log_info [LStr (js "Commit from GraphQL:"); LStr oid] ∈ (main w).2).
Proof.
  split; [|split; [|split]].
  - intros url opts resp Hin.
    pose proof (main_requests_name_env_sha w) as Hall.
    rewrite Forall_forall in Hall. exact (Hall _ Hin).
  - symmetry. apply main_with_oids.
  - apply main_with_oids.
  - apply main_logs_query_oid.
Qed.

Lemma check_requests_name_env_sha_not_query_oid_witness :
  (head_sha ∘ body ∘ snd) <$> requests_of (main world_one_error).2
  = [Some (js "9f2c1e7"); Some (js "9f2c1e7")]
  ∧ Log log_info [LStr (js "Commit from GraphQL:"); LStr (js "0a1b2c3")]
    ∈ (main world_one_error).2.
Proof.
  split; [reflexivity|].
  exact (proj2 (proj2 (proj2
           (check_requests_name_env_sha_not_query_oid world_one_error id)))
         {| data := Some (Some 42) |} (Some 42) (js "t0ken")
         (js "octo", js "repo")
         {| files_nodes :=
              [ {| path := js "a.js" |}; {| path := js "b.py" |};
                {| path := js "c.ts" |} ];
            commits_nodes := [js "0a1b2c3"] |}
         (js "0a1b2c3") []
         eq_refl eq_refl eq_refl eq_refl eq_refl eq_refl).
Defined.

(** ** Which paths have which extension *)

Lemma extname_step_cases (p : jsstring) (i : nat) (st : ext_scan) (c : N) :
  p !! i = Some c →
  extname_step p i st
  = if bool_decide (c = CHAR_FORWARD_SLASH) then
      if matchedSlash st then inr st
      else inl (mk_ext_scan (startDot st) (Z.of_nat i + 1) (end_ st)
                  (matchedSlash st) (preDotState st))
    else
      let e := if end_ st =? -1 then Z.of_nat i + 1 else end_ st in
      let m := if end_ st =? -1 then false else matchedSlash st in
      if bool_decide (c = CHAR_DOT) then
        if startDot st =? -1
        then inr (mk_ext_scan (Z.of_nat i) (startPart st) e m (preDotState st))
        else inr (mk_ext_scan (startDot st) (startPart st) e m 1)
      else if startDot st =? -1
        then inr (mk_ext_scan (startDot st) (startPart st) e m (preDotState st))
        else inr (mk_ext_scan (startDot st) (startPart st) e m (-1)).
Proof.
  intros Hc. unfold extname_step, charCodeAt, code_is. rewrite Hc.
  destruct st as [sd sp en ms pd]. cbn [startDot startPart end_ matchedSlash
                                        preDotState].
  destruct (decide (c = CHAR_FORWARD_SLASH)) as [->|Hs].
  { rewrite !bool_decide_eq_true_2 by done. by destruct ms. }
  rewrite (bool_decide_eq_false_2 (Some c = Some CHAR_FORWARD_SLASH))
    by congruence.
  rewrite (bool_decide_eq_false_2 (c = CHAR_FORWARD_SLASH)) by done.
  destruct (decide (c = CHAR_DOT)) as [->|Hd].
  - rewrite !bool_decide_eq_true_2 by done. cbv zeta.
    destruct (en =? -1);
      cbn [startDot startPart end_ matchedSlash preDotState];
      (destruct (sd =? -1); [done|]);
      by destruct (Z.eqb_spec pd 1) as [->|].
  - rewrite (bool_decide_eq_false_2 (Some c = Some CHAR_DOT)) by congruence.
    rewrite (bool_decide_eq_false_2 (c = CHAR_DOT)) by done. cbv zeta.
    destruct (en =? -1);
      cbn [startDot startPart end_ matchedSlash preDotState];
      by destruct (sd =? -1).
Qed.

Lemma scan_inv_init (p : jsstring) : scan_inv p (length p) ext_scan_init.
Proof. split; [done|]. left. repeat split. intros i Hi. lia. Qed.

Lemma scan_inv_step (p : jsstring) (i : nat) (st : ext_scan) :
  scan_inv p (S i) st →
  match extname_step p i st with
  | inl st' =>
      scan_inv p (S i) st' ∧ p !! i = Some CHAR_FORWARD_SLASH
      ∧ matchedSlash st' = false
  | inr st' => scan_inv p i st'
  end.
Proof.
  intros [Hn Hinv].
  destruct (lookup_lt_is_Some_2 p i ltac:(lia)) as [c Hc].
  rewrite (extname_step_cases p i st c Hc).
  assert (∀ (P : nat → Prop) (hi : nat),
            P i → (∀ j, (S i ≤ j < hi)%nat → P j) →
            ∀ j, (i ≤ j < hi)%nat → P j) as Hext.
  { intros P hi Hi Hrest j Hj. destruct (decide (j = i)) as [->|]; [done|].
    apply Hrest. lia. }
  destruct Hinv as [(He & Hsd & Hpd & Hms & Hsl)
                   |(e & He & Hne & Hms & Hsl & Hns & Hdot)].
  - rewrite He, Hsd, Hms. cbn [Z.eqb Pos.eqb]. cbv zeta.
    case_bool_decide as Hcs; [subst c|].
    { split; [lia|]. left. repeat split; try done. by apply Hext. }
    assert (∀ j, (i ≤ j < S i)%nat → p !! j ≠ Some CHAR_FORWARD_SLASH) as Hns.
    { intros j Hj. replace j with i by lia. congruence. }
    case_bool_decide as Hcd; [subst c|].
    + split; [lia|]. right. exists (S i).
      cbn [startDot end_ matchedSlash preDotState].
      split; [lia|]. split; [lia|]. split; [done|]. split; [done|].
      split; [done|]. right. exists i. repeat split; try done; lia.
    + split; [lia|]. right. exists (S i).
      cbn [startDot end_ matchedSlash preDotState].
      split; [lia|]. split; [lia|]. split; [done|]. split; [done|].
      split; [done|]. left. repeat split; try done.
      intros j Hj. replace j with i by lia. congruence.
  - assert ((end_ st =? -1) = false) as -> by (apply Z.eqb_neq; lia).
    rewrite Hms. cbv zeta.
    case_bool_decide as Hcs; [subst c|].
    { split; [|done]. split; [done|]. right. exists e.
      cbn [startDot end_ matchedSlash preDotState].
      split; [done|]. split; [lia|]. split; [done|]. split; [done|].
      split; [done|]. done. }
    assert (∀ j, (i ≤ j < e)%nat → p !! j ≠ Some CHAR_FORWARD_SLASH) as Hns'.
    { apply Hext; [congruence|done]. }
    destruct Hdot as [(Hsd & Hpd & Hnd)|(d & Hsd & Hd & Hpdot & Hnd & Hpd)].
    + rewrite Hsd. cbn [Z.eqb Pos.eqb].
      case_bool_decide as Hcd; [subst c|].
      * split; [lia|]. right. exists e.
        cbn [startDot end_ matchedSlash preDotState].
        split; [done|]. split; [lia|]. split; [done|]. split; [done|].
        split; [done|]. right. exists i.
        split; [done|]. split; [lia|]. split; [done|].
        split; [intros j Hj; apply Hnd; lia|done].
      * split; [lia|]. right. exists e.
        cbn [startDot end_ matchedSlash preDotState].
        split; [done|]. split; [lia|]. split; [done|]. split; [done|].
        split; [done|]. left. repeat split; try done.
        apply Hext; [congruence|done].
    + assert ((startDot st =? -1) = false) as -> by (apply Z.eqb_neq; lia).
      case_bool_decide as Hcd; (split; [lia|]); right; exists e;
        cbn [startDot end_ matchedSlash preDotState];
        (split; [done|]); (split; [lia|]); (split; [done|]);
        (split; [done|]); (split; [done|]); right; exists d;
        (split; [done|]); (split; [lia|]); (split; [done|]);
        (split; [done|]); split; (done || lia).
Qed.

Lemma scan_inv_loop (p : jsstring) (n : nat) (st : ext_scan) :
  scan_inv p n st →
  ∃ n', scan_inv p n' (extname_loop p n st)
        ∧ (n' = 0%nat
           ∨ (∃ i, n' = S i ∧ p !! i = Some CHAR_FORWARD_SLASH
                   ∧ matchedSlash (extname_loop p n st) = false)).
Proof.
  revert st. induction n as [|i IH]; intros st Hinv.
  - exists 0%nat. split; [done|]. by left.
  - cbn [extname_loop]. pose proof (scan_inv_step p i st Hinv) as Hstep.
    destruct (extname_step p i st) as [st'|st'].
    + destruct Hstep as (Hinv' & Hs & Hm). exists (S i). split; [done|].
      right. by exists i.
    + by apply IH.
Qed.

Lemma extname_scanned (p : jsstring) :
  ∃ n, scan_inv p n (extname_loop p (length p) ext_scan_init)
       ∧ (n = 0%nat
          ∨ (∃ i, n = S i ∧ p !! i = Some CHAR_FORWARD_SLASH
                  ∧ matchedSlash (extname_loop p (length p) ext_scan_init)
                    = false)).
Proof. apply scan_inv_loop, scan_inv_init. Qed.

Lemma slice_nat (p : jsstring) (d e : nat) :
  slice p (Z.of_nat d) (Z.of_nat e) = take (e - d) (drop d p).
Proof.
  unfold slice. rewrite Nat2Z.id. f_equal. lia.
Qed.

(** A path split at the dot [d] and the end [e] of its last component. *)
Lemma split_at_extension (p : jsstring) (d e : nat) (c : N) :
  (S (S d) ≤ e ≤ length p)%nat →
  p !! d = Some c → p !! S d = Some CHAR_DOT →
  p = take d p ++ c :: CHAR_DOT :: take (e - S (S d)) (drop (S (S d)) p)
        ++ drop e p.
Proof.
  intros He Hc Hdot.
  rewrite <- (take_drop_middle p d c Hc) at 1. do 2 f_equal.
  rewrite <- (take_drop_middle p (S d) CHAR_DOT Hdot) at 1.
  rewrite drop_app_length'; [|rewrite length_take; lia].
  f_equal.
  rewrite <- (take_drop (e - S (S d)) (drop (S (S d)) p)) at 1. f_equal.
  rewrite drop_drop. f_equal. lia.
Qed.

Lemma extname_cond_false (st : ext_scan) :
  (startDot st =? -1) || (end_ st =? -1) || (preDotState st =? 0)
  || ((preDotState st =? 1) && (startDot st =? end_ st - 1)
      && (startDot st =? startPart st + 1)) = false →
  startDot st ≠ -1 ∧ end_ st ≠ -1 ∧ preDotState st ≠ 0.
Proof.
  rewrite !orb_false_iff. intros [[[H1 H2] H3] _].
  by rewrite !Z.eqb_neq in H1, H2, H3.
Qed.

Lemma extname_nonempty_shape (p : jsstring) :
  extname p ≠ [] →
  ∃ pre c body sl,
    p = pre ++ c :: CHAR_DOT :: body ++ sl
    ∧ extname p = CHAR_DOT :: body
    ∧ c ≠ CHAR_FORWARD_SLASH
    ∧ Forall plain body
    ∧ Forall (fun x => x = CHAR_FORWARD_SLASH) sl.
Proof.
  destruct (extname_scanned p) as (n & [Hn Hinv] & _).
  unfold extname. cbv zeta.
  set (st := extname_loop p (length p) ext_scan_init) in *.
  destruct (_ || _) eqn:Hcond; [done|]. intros _.
  apply extname_cond_false in Hcond as (Hsd' & He' & Hpd').
  destruct Hinv as [(He & _)|(e & He & Hne & Hms & Hsl & Hns & Hdot)]; [done|].
  destruct Hdot as [(Hsd & _)|(d & Hsd & Hd & Hpdot & Hnd & Hpd)]; [done|].
  assert (n ≠ d) as Hnd' by (intros ->; by apply Hpd', Hpd).
  destruct d as [|a]; [lia|].
  destruct (lookup_lt_is_Some_2 p a ltac:(lia)) as [c Hc].
  rewrite Hsd, He, slice_nat.
  exists (take a p), c, (take (e - S (S a)) (drop (S (S a)) p)), (drop e p).
  split; [apply split_at_extension; [lia|done..]|].
  split.
  { rewrite (drop_S p CHAR_DOT (S a) Hpdot).
    by replace (e - S a)%nat with (S (e - S (S a))) by lia. }
  split.
  { intros ->. by apply (Hns a ltac:(lia)). }
  split.
  - apply Forall_lookup_2. intros j x Hj.
    apply lookup_take_Some in Hj as [Hj Hlt]. rewrite lookup_drop in Hj.
    split; intros ->.
    + by apply (Hns (S (S a) + j)%nat ltac:(lia)).
    + by apply (Hnd (S (S a) + j)%nat ltac:(lia)).
  - apply Forall_lookup_2. intros j x Hj. rewrite lookup_drop in Hj.
    pose proof (lookup_lt_Some _ _ _ Hj) as Hlt.
    rewrite (Hsl (e + j)%nat ltac:(lia)) in Hj. congruence.
Qed.

Lemma extname_of_shape (pre body sl : jsstring) (c : N) :
  c ≠ CHAR_FORWARD_SLASH → Forall plain body → body ≠ [] →
  Forall (fun x => x = CHAR_FORWARD_SLASH) sl →
  extname (pre ++ c :: CHAR_DOT :: body ++ sl) = CHAR_DOT :: body.
Proof.
  intros Hc Hbody Hne Hsl.
  set (p := pre ++ c :: CHAR_DOT :: body ++ sl).
  set (a := length pre). set (e0 := (S (S a) + length body)%nat).
  assert (length p = (e0 + length sl)%nat) as Hlen.
  { unfold p, e0, a. rewrite length_app. cbn [length]. rewrite length_app. lia. }
  assert (∀ i, p !! (a + i)%nat = (c :: CHAR_DOT :: body ++ sl) !! i) as Hat.
  { intros i. unfold p, a. rewrite lookup_app_r by lia. f_equal. lia. }
  assert (∀ k, p !! (a + S (S k))%nat = (body ++ sl) !! k) as Hat2.
  { intros k. by rewrite Hat. }
  assert (p !! a = Some c) as Hpa.
  { by rewrite <- (Nat.add_0_r a), Hat. }
  assert (p !! S a = Some CHAR_DOT) as Hpdot.
  { by rewrite <- (Nat.add_1_r a), Hat. }
  assert (∀ i, (S a < i < e0)%nat → ∃ x, p !! i = Some x ∧ plain x) as Hpb.
  { intros i Hi. replace i with (a + S (S (i - S (S a))))%nat by lia.
    rewrite Hat2.
    destruct (lookup_lt_is_Some_2 body (i - S (S a)) ltac:(lia)) as [x Hx].
    exists x. split; [by apply lookup_app_l_Some|].
    by apply (Forall_lookup_1 _ _ _ _ Hbody Hx). }
  assert (∀ i, (e0 ≤ i < length p)%nat → p !! i = Some CHAR_FORWARD_SLASH)
    as Hps.
  { intros i Hi. replace i with (a + S (S (i - S (S a))))%nat by lia.
    rewrite Hat2, lookup_app_r by lia.
    destruct (lookup_lt_is_Some_2 sl (i - S (S a) - length body)
                ltac:(lia)) as [x Hx].
    rewrite Hx. f_equal. by apply (Forall_lookup_1 _ _ _ _ Hsl Hx). }
  assert (∀ i, (a ≤ i < e0)%nat → p !! i ≠ Some CHAR_FORWARD_SLASH) as Hpn.
  { intros i Hi. destruct (decide (i = a)) as [->|]; [congruence|].
    destruct (decide (i = S a)) as [->|]; [by rewrite Hpdot|].
    destruct (Hpb i ltac:(lia)) as (x & -> & Hx & _). congruence. }
  assert (0 < length body)%nat as Hbl by (destruct body; [done|cbn; lia]).
  destruct (extname_scanned p) as (n & [Hn Hinv] & Hstop).
  unfold extname. cbv zeta. fold p.
  set (st := extname_loop p (length p) ext_scan_init) in *.
  destruct Hinv as [(He & _ & _ & Hms & Hall)
                   |(e & He & Hlt & Hms & Htl & Hns & Hdot)].
  { exfalso. destruct Hstop as [->|(i & -> & _ & Hms')]; [|congruence].
    apply (Hpn a ltac:(lia)), Hall. lia. }
  assert (e = e0) as ->.
  { destruct (decide (e < e0)%nat) as [Hlt'|].
    { exfalso. apply (Hpn (e0 - 1)%nat ltac:(lia)), Htl. lia. }
    destruct (decide (e0 < e)%nat) as [Hgt|]; [|lia].
    exfalso. apply (Hns (e - 1)%nat ltac:(lia)), Hps. lia. }
  assert (n ≤ a)%nat as Hna.
  { destruct Hstop as [->|(i & -> & Hi & _)]; [lia|].
    destruct (decide (i < a)%nat); [lia|].
    exfalso. by apply (Hpn i ltac:(lia)). }
  destruct Hdot as [(_ & _ & Hnd)|(d & Hsd & Hd & Hpd & Hnd & Hpre)].
  { exfalso. by apply (Hnd (S a) ltac:(lia)). }
  assert (d = S a) as ->.
  { destruct (decide (d < S a)%nat).
    { exfalso. by apply (Hnd (S a) ltac:(lia)). }
    destruct (decide (S a < d)%nat); [|lia].
    exfalso. destruct (Hpb d ltac:(lia)) as (x & Hx & _ & Hxd). congruence. }
  assert (preDotState st ≠ 0) as Hp0 by (rewrite Hpre; lia).
  rewrite Hsd, He.
  assert ((Z.of_nat (S a) =? -1) = false) as -> by (apply Z.eqb_neq; lia).
  assert ((Z.of_nat e0 =? -1) = false) as -> by (apply Z.eqb_neq; lia).
  assert ((preDotState st =? 0) = false) as -> by by apply Z.eqb_neq.
  assert ((Z.of_nat (S a) =? Z.of_nat e0 - 1) = false) as ->
    by (apply Z.eqb_neq; lia).
  rewrite andb_false_r. cbn [orb andb].
  rewrite slice_nat. unfold p, e0, a.
  replace (S (S (length pre)) + length body - S (length pre))%nat
    with (S (length body)) by lia.
  change (pre ++ c :: CHAR_DOT :: body ++ sl)
    with (pre ++ [c] ++ CHAR_DOT :: body ++ sl).
  rewrite app_assoc, drop_app_length' by (rewrite length_app; cbn; lia).
  cbn [take]. f_equal. apply take_app_length.
Qed.

(** A path has a given extension, not a bare dot, exactly when it ends with
    a code unit other than a separator, the extension, and separators. *)
Lemma extname_eq_iff (p body : jsstring) :
  Forall plain body → body ≠ [] →
  extname p = CHAR_DOT :: body
  ↔ ∃ pre c sl,
      c ≠ CHAR_FORWARD_SLASH
      ∧ Forall (fun x => x = CHAR_FORWARD_SLASH) sl
      ∧ p = pre ++ c :: CHAR_DOT :: body ++ sl.
Proof.
  intros Hbody Hne. split.
  - intros Hext.
    destruct (extname_nonempty_shape p) as (pre & c & body' & sl & Hp & He
                                            & Hc & _ & Hsl).
    { by rewrite Hext. }
    rewrite Hext in He. injection He as ->. by exists pre, c, sl.
  - intros (pre & c & sl & Hc & Hsl & ->). by apply extname_of_shape.
Qed.

Lemma lintable_extension (ext : jsstring) :
  ext ∈ EXTENSIONS_TO_LINT →
  ∃ body, ext = CHAR_DOT :: body ∧ Forall plain body ∧ body ≠ [].
Proof.
  unfold EXTENSIONS_TO_LINT. rewrite !elem_of_cons, elem_of_nil.
  intros [->|[->|[->|[->|[->|[]]]]]];
    (eexists; split; [reflexivity|]); (split; [|done]);
    repeat constructor; discriminate.
Qed.

Lemma lintable_elem_of (p : jsstring) :
  lintable p ↔ extname p ∈ EXTENSIONS_TO_LINT.
Proof.
  unfold lintable, EXTENSIONS_TO_LINT.
  rewrite !elem_of_cons, elem_of_nil. tauto.
Qed.

(** X1: the filter selects a changed path exactly when the path is made of
    any prefix, one code unit that is not a separator, one of the five
    extensions, and nothing after it but separators. *)
Theorem filesToLint_selects_by_suffix (files : list file) (p : jsstring) :
  p ∈ filesToLint files
  ↔ p ∈ (path <$> files)
    ∧ ∃ pre c ext sl,
        ext ∈ EXTENSIONS_TO_LINT
        ∧ c ≠ CHAR_FORWARD_SLASH
        ∧ Forall (fun x => x = CHAR_FORWARD_SLASH) sl
        ∧ p = pre ++ c :: ext ++ sl.
Proof.
  rewrite elem_of_filesToLint, lintable_elem_of.
  apply and_iff_compat_l. split.
  - intros Hext.
    destruct (lintable_extension _ Hext) as (body & Hb & Hplain & Hne).
    apply (extname_eq_iff p body Hplain Hne) in Hb
      as (pre & c & sl & Hc & Hsl & ->).
    exists pre, c, (CHAR_DOT :: body), sl. repeat split; try done.
    by rewrite <- (extname_of_shape pre body sl c Hc Hplain Hne Hsl).
  - intros (pre & c & ext & sl & Hext & Hc & Hsl & ->).
    destruct (lintable_extension _ Hext) as (body & -> & Hplain & Hne).
    cbn [app]. by rewrite (extname_of_shape pre body sl c Hc Hplain Hne Hsl).
Qed.

(** ** More on the normalizer *)

(** X2: the level of an annotation is undefined exactly when the severity of
    its diagnostic is below 0 or above 2. *)
Theorem annotation_level_undefined_iff (p : jsstring) (msg : lint_message) :
  annotation_level (annotate p msg) = None
  ↔ severity msg < 0 ∨ 2 < severity msg.
Proof.
  unfold annotate, index. cbn [annotation_level].
  destruct (Z.leb_spec 0 (severity msg)) as [Hle|Hlt].
  - rewrite lookup_ge_None. unfold levels. cbn [length]. lia.
  - split; [lia|done].
Qed.

Lemma annotations_of_lines_and_messages (workspace : jsstring)
    (rs : list lint_result) :
  (fun a => (start_line a, end_line a, ann_message a))
    <$> annotations_of workspace rs
  = (fun m => (line m, line m,
               js "[" ++ interp_nullish (ruleId m) ++ js "] " ++ message m))
      <$> diagnostics rs.
Proof.
  unfold annotations_of, diagnostics.
  induction rs as [|r rs IH]; [done|].
  rewrite !fmap_cons, !mjoin_cons, !fmap_app, IH. f_equal.
  rewrite <- list_fmap_compose. done.
Qed.

(** X3: with a workspace root, [eslint] returns one annotation per
    diagnostic, in the engine's order, file by file; each starts and ends on
    the line of its diagnostic and its message is the rule id in brackets, a
    space and the diagnostic's message, the rule id being written [null]
    when it is null and [undefined] when the diagnostic has none; the title
    is the name of the check and the summary gives the two counts. *)
Theorem eslint_annotations_in_order (w : World) (files : list jsstring)
    (t : list event) (rep : lint_report) (workspace : jsstring) :
  executeOnFiles w eslint_opts files = resolved rep →
  GITHUB_WORKSPACE (env w) = Some workspace →
  ∃ r t', eslint w files t = (Ret r, t')
    ∧ (fun a => (start_line a, end_line a, ann_message a))
        <$> annotations (output r)
      = (fun m => (line m, line m,
                   js "[" ++ match ruleId m with
                             | Some (Some rule) => rule
                             | Some None => js "null"
                             | None => js "undefined"
                             end ++ js "] " ++ message m))
          <$> diagnostics (results rep)
    ∧ title (output r) = js "ESLint check"
    ∧ summary (output r)
      = Number_toString (errorCount rep) ++ js " error(s), "
        ++ Number_toString (warningCount rep) ++ js " warning(s) found".
Proof.
  intros He Hws. eexists _, _. split; [by apply eslint_returns|].
  split; [apply annotations_of_lines_and_messages|done].
Qed.

Lemma eslint_annotations_in_order_witness :
  ∃ r t',
    eslint (sample_world (sample_pr [js "a.js"])
              (resolved
                 {| results :=
                      [ {| filePath := js "/github/workspace/a.js";
                           messages :=
                             [ {| line := Some 7; severity := 2;
                                  ruleId := Some None;
                                  message := js "Parsing error" |};
                               sample_message 1 ] |};
                        {| filePath := js "/github/workspace/b.js";
                           messages :=
                             [ {| line := None; severity := 1;
                                  ruleId := None;
                                  message := js "File ignored" |} ] |} ];
                    errorCount := 1; warningCount := 2 |}))
      [js "a.js"; js "b.js"] [] = (Ret r, t')
    ∧ (fun a => (start_line a, end_line a, ann_message a))
        <$> annotations (output r)
      = [ (Some 7, Some 7, js "[null] Parsing error");
          (Some 3, Some 3, js "[semi] Missing semicolon.");
          (None, None, js "[undefined] File ignored") ].
Proof.
  destruct (eslint_annotations_in_order
              (sample_world (sample_pr [js "a.js"])
                 (resolved
                    {| results :=
                         [ {| filePath := js "/github/workspace/a.js";
                              messages :=
                                [ {| line := Some 7; severity := 2;
                                     ruleId := Some None;
                                     message := js "Parsing error" |};
                                  sample_message 1 ] |};
                           {| filePath := js "/github/workspace/b.js";
                              messages :=
                                [ {| line := None; severity := 1;
                                     ruleId := None;
                                     message := js "File ignored" |} ] |} ];
                       errorCount := 1; warningCount := 2 |}))
              [js "a.js"; js "b.js"] [] _ (js "/github/workspace")
              eq_refl eq_refl)
    as (r & t' & Hr & Ha & _).
  exists r, t'. split; [exact Hr|exact Ha].
Defined.

(** X4: without a workspace root in the environment, [eslint] throws as
    soon as the engine's report has a result, after the engine run and
    before any log line or annotation; when the report has no result it
    returns a report without annotations. *)
Theorem eslint_without_workspace_root (w : World) (files : list jsstring)
    (t : list event) (rep : lint_report) :
  executeOnFiles w eslint_opts files = resolved rep →
  GITHUB_WORKSPACE (env w) = None →
  (results rep = [] →
   eslint w files t
   = (Ret (report_of rep []),
      t ++ [EngineRun eslint_opts files (resolved rep)]))
  ∧ (results rep ≠ [] →
     ∃ e, eslint w files t
          = (Throw e, t ++ [EngineRun eslint_opts files (resolved rep)])).
Proof.
  intros He Hws. rewrite eslint_run. cbv zeta. rewrite He, Hws.
  split; intros Hres; destruct (results rep); try done. by eexists.
Qed.

Lemma eslint_without_workspace_root_witness :
  ∃ e, (eslint (world_without_workspace
                  (sample_report (js "/github/workspace/a.js") [2] 1 0))
          [js "a.js"] []).1 = Throw e.
Proof.
  destruct (proj2 (eslint_without_workspace_root
                     (world_without_workspace
                        (sample_report (js "/github/workspace/a.js") [2] 1 0))
                     [js "a.js"] [] _ eq_refl eq_refl)
              ltac:(discriminate)) as [e He].
  exists e. by rewrite He.
Defined.

(** X5: whatever the engine answers, [eslint] runs it once, first, on the
    files it was given, with the extensions [.js], [.jsx], [.tsx] and the
    ignore file [.gitignore]; all it adds to the trace after that are log
    lines, none when the engine throws, in which case [eslint] throws the
    engine's error, and one per result when the engine answers and the
    workspace root is defined. *)
Theorem eslint_runs_the_engine_once (w : World) (files : list jsstring)
    (t : list event) :
  ∃ logs,
    (eslint w files t).2
    = t ++ EngineRun {| extensions := [js ".js"; js ".jsx"; js ".tsx"];
                        ignorePath := js ".gitignore" |}
             files (executeOnFiles w eslint_opts files) :: logs
    ∧ Forall (fun ev => is_log ev = true) logs
    ∧ (∀ e, executeOnFiles w eslint_opts files = rejected e →
            (eslint w files t).1 = Throw e ∧ logs = [])
    ∧ (∀ rep workspace,
         executeOnFiles w eslint_opts files = resolved rep →
         GITHUB_WORKSPACE (env w) = Some workspace →
         length logs = length (results rep)).
Proof.
  rewrite eslint_run. cbv zeta. fold eslint_opts.
  destruct (executeOnFiles w eslint_opts files) as [rep|e].
  - destruct (GITHUB_WORKSPACE (env w)) as [workspace|];
      [|destruct (results rep)].
    + exists (path_logs workspace (results rep)). cbn [fst snd].
      split; [by rewrite <- app_assoc|]. split.
      { unfold path_logs. apply Forall_fmap, Forall_true. done. }
      split; [done|]. intros rep' ws' [= <-] [= <-].
      unfold path_logs. by rewrite length_fmap.
    + exists []. cbn [fst snd]. repeat split; try done.
    + exists []. cbn [fst snd]. repeat split; try done.
  - exists []. cbn [fst snd]. split; [done|]. split; [done|].
    split; [|done]. by intros e' [= <-].
Qed.

(** ** Every run, leaf by leaf *)

Lemma main_after_try (w : World) (resp : response) (id : option Z)
    (o : outcome unit) (t2 : list event) :
  request w 0 (check_runs_url w) (create_opts w (prelude w)) = resolved resp →
  data resp = Some id →
  run_try w id (opened w resp) = (o, t2) →
  main w = match o with
           | Throw e => failed_update w id e t2
           | _ => (o, t2)
           end.
Proof.
  intros Hr Hd Ht.
  pose proof (createCheck_opened w resp id Hr Hd) as Hc.
  assert ((prelude w
           ++ [HttpRequest (check_runs_url w) (create_opts w (prelude w))
                 (resolved resp)]) ++ [created] = opened w resp) as Ho.
  { unfold opened. by rewrite <- app_assoc. }
  rewrite <- Ho in Ht.
  destruct o as [[]|e|code].
  - by apply (main_try_returned w id _ _ Hc).
  - by apply (main_try_threw w id _ _ e Hc).
  - by apply (main_try_exited w id _ _ code Hc).
Qed.

Lemma main_leaf (w : World) : run_leaf w (main w).
Proof.
  destruct (request w 0 (check_runs_url w) (create_opts w (prelude w)))
    as [resp|e0] eqn:Hr; [destruct (data resp) as [id|] eqn:Hd|].
  - pose proof (run_try_run w id (opened w resp)) as Hrun.
    destruct (repo_token w) as [token|] eqn:Htok.
    2: { rewrite (main_after_try w resp id _ _ Hr Hd Hrun).
         apply (leaf_no_query w resp id _ Hr Hd). by left. }
    destruct (context_repo w) as [repo|] eqn:Hrepo.
    2: { rewrite (main_after_try w resp id _ _ Hr Hd Hrun).
         apply (leaf_no_query w resp id _ Hr Hd). right. by rewrite Htok. }
    cbv zeta in Hrun.
    destruct (graphql w token (query_vars w repo)) as [[pr|]|e] eqn:Hq.
    2: { rewrite (main_after_try w resp id _ _ Hr Hd Hrun).
         apply (leaf_bad_query w resp id token repo _ _ Hr Hd Htok Hrepo Hq).
         right; left. done. }
    2: { rewrite (main_after_try w resp id _ _ Hr Hd Hrun).
         apply (leaf_bad_query w resp id token repo _ _ Hr Hd Htok Hrepo Hq).
         by left. }
    destruct (commits_nodes pr) as [|oid rest] eqn:Hcom.
    { rewrite (main_after_try w resp id _ _ Hr Hd Hrun).
      apply (leaf_bad_query w resp id token repo _ _ Hr Hd Htok Hrepo Hq).
      right; right. by exists pr. }
    destruct (filesToLint (files_nodes pr)) as [|target targets] eqn:Hf.
    { cbn [length Nat.ltb Nat.leb] in Hrun.
      rewrite (main_after_try w resp id _ _ Hr Hd Hrun).
      rewrite <- !app_assoc.
      by apply (leaf_nothing_to_lint w resp id token repo pr oid rest). }
    cbn [length Nat.ltb Nat.leb] in Hrun.
    assert (filesToLint (files_nodes pr) ≠ []) as Hne by by rewrite Hf.
    replace (((opened w resp
               ++ [GraphqlQuery token (query_vars w repo) (resolved (Some pr))])
              ++ query_logs pr oid)
             ++ lint_start_logs w (target :: targets))
      with (linting w resp token repo pr oid) in Hrun
      by (unfold linting; by rewrite Hf, !app_assoc).
    rewrite <- Hf in Hrun.
    destruct (eslint w (filesToLint (files_nodes pr))
                (linting w resp token repo pr oid)) as [[r|e|code] t4] eqn:He.
    + cbv zeta in Hrun.
      destruct (request w (count_requests (t4 ++ lint_end_logs r))
                  (check_run_url w id)
                  (update_opts w (conclusion r) (Some (output r))
                     (t4 ++ lint_end_logs r))) as [resp'|e] eqn:Hu.
      * rewrite (main_after_try w resp id _ _ Hr Hd Hrun).
        destruct (bool_decide (conclusion r = js "failure")) eqn:Hb.
        -- pose proof (leaf_reported w resp id token repo pr oid rest r t4
                         resp' Hr Hd Htok Hrepo Hq Hcom Hne He Hu) as Hl.
           by rewrite Hb in Hl.
        -- pose proof (leaf_reported w resp id token repo pr oid rest r t4
                         resp' Hr Hd Htok Hrepo Hq Hcom Hne He Hu) as Hl.
           by rewrite Hb in Hl.
      * rewrite (main_after_try w resp id _ _ Hr Hd Hrun).
        by apply (leaf_report_rejected w resp id token repo pr oid rest r t4).
    + rewrite (main_after_try w resp id _ _ Hr Hd Hrun).
      by apply (leaf_lint_threw w resp id token repo pr oid rest e t4).
    + exfalso. by apply eslint_shape in He as (ev & _ & _ & []).
  - assert (createCheck w (prelude w)
            = (Throw (TypeError "Cannot destructure property 'id' of 'data'"),
               prelude w
               ++ [HttpRequest (check_runs_url w) (create_opts w (prelude w))
                     (resolved resp)])) as Hc.
    { rewrite createCheck_run. cbv zeta.
      change (count_requests (prelude w)) with 0%nat. by rewrite Hr, Hd. }
    rewrite (main_create_failed w _ _ Hc), <- app_assoc.
    apply (leaf_not_opened w (resolved resp)); [done|]. right. by exists resp.
  - assert (createCheck w (prelude w)
            = (Throw e0,
               prelude w
               ++ [HttpRequest (check_runs_url w) (create_opts w (prelude w))
                     (rejected e0)])) as Hc.
    { rewrite createCheck_run. cbv zeta.
      change (count_requests (prelude w)) with 0%nat. by rewrite Hr. }
    rewrite (main_create_failed w _ _ Hc), <- app_assoc.
    apply (leaf_not_opened w (rejected e0)); [done|]. by left.
Qed.

(** ** What a run does, without its log lines *)

Lemma deeds_app (t u : list event) : deeds (t ++ u) = deeds t ++ deeds u.
Proof. apply List.filter_app. Qed.

Lemma deeds_logs (l : list event) :
  Forall (fun ev => is_log ev = true) l → deeds l = [].
Proof.
  unfold deeds. induction 1 as [|e l He _ IH]; [done|].
  cbn [List.filter]. by rewrite He.
Qed.

Lemma deeds_prelude (w : World) : deeds (prelude w) = [].
Proof. reflexivity. Qed.

Lemma deeds_error_logs (e : js_error) : deeds (error_logs e) = [].
Proof. apply deeds_logs, error_logs_are_logs. Qed.

Lemma deeds_query_logs (pr : pull_request) (oid : jsstring) :
  deeds (query_logs pr oid) = [].
Proof. reflexivity. Qed.

Lemma deeds_lint_start_logs (w : World) (targets : list jsstring) :
  deeds (lint_start_logs w targets) = [].
Proof. unfold lint_start_logs. by destruct (forallb _ _). Qed.

Lemma deeds_lint_end_logs (r : report) : deeds (lint_end_logs r) = [].
Proof. reflexivity. Qed.

Lemma deeds_opened (w : World) (resp : response) :
  deeds (opened w resp)
  = [HttpRequest (check_runs_url w) (create_opts w (prelude w))
       (resolved resp)].
Proof. reflexivity. Qed.

Lemma deeds_linting (w : World) (resp : response) (token : jsstring)
    (repo : jsstring * jsstring) (pr : pull_request) (oid : jsstring) :
  deeds (linting w resp token repo pr oid)
  = [ HttpRequest (check_runs_url w) (create_opts w (prelude w))
        (resolved resp);
      GraphqlQuery token (query_vars w repo) (resolved (Some pr)) ].
Proof.
  unfold linting. rewrite !deeds_app, deeds_opened, deeds_query_logs,
    deeds_lint_start_logs. reflexivity.
Qed.

Lemma eslint_trace (w : World) (files : list jsstring) (t t' : list event)
    (o : outcome report) :
  eslint w files t = (o, t') →
  ∃ logs, t' = t ++ EngineRun eslint_opts files
                      (executeOnFiles w eslint_opts files) :: logs
          ∧ Forall (fun ev => is_log ev = true) logs.
Proof.
  rewrite eslint_run. cbv zeta.
  destruct (executeOnFiles w eslint_opts files) as [rep|e].
  - destruct (GITHUB_WORKSPACE (env w)) as [workspace|];
      [|destruct (results rep)]; intros [= <- <-].
    + exists (path_logs workspace (results rep)).
      split; [by rewrite <- app_assoc|].
      unfold path_logs. apply Forall_fmap, Forall_true. done.
    + by exists [].
    + by exists [].
  - intros [= <- <-]. by exists [].
Qed.

Lemma eslint_deeds (w : World) (files : list jsstring) (t t' : list event)
    (o : outcome report) :
  eslint w files t = (o, t') →
  deeds t' = deeds t ++ [EngineRun eslint_opts files
                           (executeOnFiles w eslint_opts files)].
Proof.
  intros (logs & -> & Hlogs)%eslint_trace.
  rewrite deeds_app. f_equal.
  change (EngineRun eslint_opts files (executeOnFiles w eslint_opts files)
          :: logs)
    with ([EngineRun eslint_opts files (executeOnFiles w eslint_opts files)]
          ++ logs).
  by rewrite deeds_app, (deeds_logs logs Hlogs).
Qed.

Lemma deeds_failed_update (w : World) (id : option Z) (err : js_error)
    (t : list event) :
  deeds (failed_update w id err t).2
  = deeds t
    ++ [HttpRequest (check_run_url w id) (update_opts w (js "failure") None t)
          (request w (count_requests t) (check_run_url w id)
             (update_opts w (js "failure") None t))].
Proof.
  unfold failed_update. cbn [snd].
  by rewrite !deeds_app, deeds_error_logs, app_nil_r.
Qed.

Lemma elem_of_deeds (e : event) (t : list event) :
  e ∈ deeds t ↔ e ∈ t ∧ is_log e = false.
Proof.
  unfold deeds. rewrite !list_elem_of_In, List.filter_In.
  destruct (is_log e); cbn [negb]; intuition congruence.
Qed.

(** What a run did in each leaf. *)
Ltac deeds_steps :=
  cbn [fst snd];
  rewrite ?deeds_failed_update;
  repeat first
    [ rewrite deeds_app
    | rewrite deeds_prelude
    | rewrite deeds_error_logs
    | rewrite deeds_query_logs
    | rewrite deeds_lint_end_logs
    | rewrite deeds_opened
    | erewrite eslint_deeds by eassumption
    | rewrite deeds_linting ];
  rewrite ?app_nil_r; cbn [app deeds List.filter is_log negb].

(** X6: no exception escapes a run, and what a run does, log lines apart,
    with the status it ends with, is one of: the creation alone (1); the
    creation and a completing update (1); the creation and the query (0);
    these and an update (1); the creation, the query, one engine run and
    one update (0, 78 or 1) or two updates (1). *)
Theorem run_actions_and_status (w : World) :
  (∀ e, (main w).1 ≠ Throw e)
  ∧ (actions (main w).2, exit_status (main w).1) ∈ run_shapes.
Proof.
  unfold actions.
  destruct (main_leaf w)
    as [r0 e Hr He|resp id e Hr Hd He|resp id token repo q e Hr Hd Htok Hrepo Hq He
       |resp id token repo pr oid rest Hr Hd Htok Hrepo Hq Hcom Hf
       |resp id token repo pr oid rest e t4 Hr Hd Htok Hrepo Hq Hcom Hf Hl
       |resp id token repo pr oid rest r t4 resp' Hr Hd Htok Hrepo Hq Hcom Hf Hl Hu
       |resp id token repo pr oid rest r t4 e Hr Hd Htok Hrepo Hq Hcom Hf Hl Hu].
  all: try destruct (bool_decide (conclusion r = js "failure")).
  all: (split; [done|]); deeds_steps;
    unfold run_shapes;
    repeat first [apply list_elem_of_here | apply list_elem_of_further].
Qed.

Ltac leaves w :=
  destruct (main_leaf w)
    as [r0 e0 Hr He
       |resp0 id0 e0 Hr Hd He
       |resp0 id0 token0 repo0 q0 e0 Hr Hd Htok Hrepo Hq He
       |resp0 id0 token0 repo0 pr0 oid0 rest0 Hr Hd Htok Hrepo Hq Hcom Hf
       |resp0 id0 token0 repo0 pr0 oid0 rest0 e0 t4 Hr Hd Htok Hrepo Hq Hcom
          Hf Hl
       |resp0 id0 token0 repo0 pr0 oid0 rest0 r0 t4 resp' Hr Hd Htok Hrepo Hq
          Hcom Hf Hl Hu
       |resp0 id0 token0 repo0 pr0 oid0 rest0 r0 t4 e0 Hr Hd Htok Hrepo Hq
          Hcom Hf Hl Hu].

Lemma Forall_deeds (P : event → Prop) (t : list event) :
  (∀ e, is_log e = true → P e) → Forall P (deeds t) → Forall P t.
Proof.
  intros Hlog Hd. apply Forall_forall. intros e He.
  destruct (is_log e) eqn:E; [by apply Hlog|].
  rewrite Forall_forall in Hd. apply Hd, elem_of_deeds. done.
Qed.

Lemma creation_form (w : World) (t : list event) (r : result response) :
  request_form w t
    (HttpRequest (check_runs_url w) (create_opts w (prelude w)) r).
Proof.
  unfold request_form, create_opts.
  cbn [method req_headers body body_name status started_at completed_at
       body_conclusion body_output].
  repeat split; eauto.
Qed.

Lemma update_form (w : World) (tr : list event) (resp : response)
    (id : option Z) (c : jsstring) (out : option check_output)
    (t : list event) (r : result response) :
  HttpRequest (check_runs_url w) (create_opts w (prelude w)) (resolved resp)
    ∈ tr →
  data resp = Some id →
  (out = None ∧ c = js "failure")
  ∨ (is_Some out ∧ (c = js "failure" ∨ c = js "success")) →
  request_form w tr
    (HttpRequest (check_run_url w id) (update_opts w c out t) r).
Proof.
  intros Hr Hd Hc. unfold request_form, update_opts.
  cbn [method req_headers body body_name status started_at completed_at
       body_conclusion body_output].
  split; [done|]. split; [done|].
  split.
  { eexists _, _, resp, id. split; [exact Hr|]. split; [done|].
    split; [done|]. by destruct id. }
  split; [done|]. split; [done|]. split; [by eexists|].
  destruct Hc as [[-> ->]|[Ho [->| ->]]]; [by left|right; eauto..].
Qed.

(** The creation and its answer are in the trace of every run. *)
Lemma main_creation_sent (w : World) :
  HttpRequest (check_runs_url w) (create_opts w (prelude w))
    (request w 0 (check_runs_url w) (create_opts w (prelude w)))
  ∈ (main w).2.
Proof.
  eapply proj1, elem_of_deeds.
  leaves w; deeds_steps; rewrite ?Hr; apply list_elem_of_here.
Qed.

Lemma main_request_forms (w : World) (tr : list event) :
  HttpRequest (check_runs_url w) (create_opts w (prelude w))
    (request w 0 (check_runs_url w) (create_opts w (prelude w))) ∈ tr →
  Forall (request_form w tr) (main w).2.
Proof.
  intros Hsent. apply Forall_deeds; [by intros []|].
  leaves w; deeds_steps; rewrite ?Hr in Hsent;
    repeat (apply Forall_cons; split);
    try apply Forall_nil_2; try done; try apply creation_form;
    try (by eapply update_form; eauto).
  all: apply eslint_shape in Hl as (ev & _ & _ & Hc);
    eapply update_form; eauto.
Qed.

(** X7: every request of a run has the four headers and the name of the
    check; the creation is posted to the check runs of the repository, is
    in progress and has no conclusion and no output; a completing update is
    a [PATCH] sent to that address followed by [/] and the id that the
    answer to the creation carried, and carries either no output and the
    conclusion [failure], or a report and the conclusion [failure] or
    [success]. *)
Theorem every_request_is_well_formed (w : World) (url : jsstring)
    (opts : request_opts) (r : result response) :
  HttpRequest url opts r ∈ (main w).2 →
  request_form w (main w).2 (HttpRequest url opts r).
Proof.
  intros Hin. pose proof (main_request_forms w _ (main_creation_sent w)) as Hall.
  rewrite Forall_forall in Hall. by apply Hall.
Qed.

Lemma every_request_is_well_formed_witness :
  request_form world_one_error (main world_one_error).2
    (default created (last (main world_one_error).2)).
Proof.
  apply (every_request_is_well_formed world_one_error
           (js "https://api.github.com/repos/octo/repo/check-runs/42")
           (update_opts world_one_error (js "failure")
              (Some (output (report_of
                       {| results :=
                            [ {| filePath := js "/github/workspace/a.js";
                                 messages := sample_message <$> [2] |} ];
                          errorCount := 1; warningCount := 0 |}
                       [annotate (js "a.js") (sample_message 2)])))
              (removelast (main world_one_error).2))
           (resolved {| data := Some (Some 42) |})).
  vm_compute. do 13 apply list_elem_of_further. apply list_elem_of_here.
Defined.

(** Every update of a run goes to the check run that the creation
    returned. *)
Lemma main_update_address (w : World) (resp : response) (id : option Z)
    (url : jsstring) (opts : request_opts) (r : result response) :
  request w 0 (check_runs_url w) (create_opts w (prelude w)) = resolved resp →
  data resp = Some id →
  HttpRequest url opts r ∈ (main w).2 → method opts = PATCH →
  url = check_run_url w id.
Proof.
  intros Hr' Hd' Hin Hm.
  assert (HttpRequest url opts r ∈ deeds (main w).2) as Hd''
    by (by apply elem_of_deeds).
  clear Hin. revert Hd''.
  leaves w; deeds_steps; rewrite ?elem_of_cons, elem_of_nil;
    intros Hin; repeat destruct Hin as [Hin|Hin]; try done;
    injection Hin as -> -> ->; try done; congruence.
Qed.

(** X8: a creation answered without an id does not stop the run: the id is
    undefined, and every completing update of the run goes to the address
    of the collection followed by [/undefined]. *)
Theorem check_without_id_is_updated_at_undefined (w : World)
    (resp : response) (url : jsstring) (opts : request_opts)
    (r : result response) :
  request w 0 (check_runs_url w) (create_opts w (prelude w)) = resolved resp →
  data resp = Some None →
  (createCheck w (prelude w)).1 = Ret None
  ∧ (HttpRequest url opts r ∈ (main w).2 → method opts = PATCH →
     url = check_runs_url w ++ js "/undefined").
Proof.
  intros Hr Hd. split.
  { by rewrite (createCheck_opened w resp None Hr Hd). }
  intros Hin Hm.
  by rewrite (main_update_address w resp None url opts r Hr Hd Hin Hm).
Qed.

Lemma check_without_id_is_updated_at_undefined_witness :
  (fun '(url, opts) => (method opts, url))
    <$> requests_of
          (main (world_with_platform (fun _ => resolved {| data := Some None |})
                   (fun _ => true) (sample_pr [js "a.js"])
                   (sample_report (js "/github/workspace/a.js") [1] 0 1))).2
  = [ (POST, js "https://api.github.com/repos/octo/repo/check-runs");
      (PATCH, js "https://api.github.com/repos/octo/repo/check-runs/undefined") ]
  ∧ (createCheck
       (world_with_platform (fun _ => resolved {| data := Some None |})
          (fun _ => true) (sample_pr [js "a.js"])
          (sample_report (js "/github/workspace/a.js") [1] 0 1))
       (prelude
          (world_with_platform (fun _ => resolved {| data := Some None |})
             (fun _ => true) (sample_pr [js "a.js"])
             (sample_report (js "/github/workspace/a.js") [1] 0 1)))).1
    = Ret None.
Proof.
  split; [reflexivity|].
  exact (proj1 (check_without_id_is_updated_at_undefined
                  (world_with_platform
                     (fun _ => resolved {| data := Some None |})
                     (fun _ => true) (sample_pr [js "a.js"])
                     (sample_report (js "/github/workspace/a.js") [1] 0 1))
                  {| data := Some None |} [] (create_opts
                     (world_with_platform
                        (fun _ => resolved {| data := Some None |})
                        (fun _ => true) (sample_pr [js "a.js"])
                        (sample_report (js "/github/workspace/a.js") [1] 0 1))
                     []) (rejected (Error "unused"))
                  eq_refl eq_refl)).
Defined.

Lemma elem_of_main_deeds (w : World) (e : event) :
  e ∈ (main w).2 → is_log e = false → e ∈ deeds (main w).2.
Proof. intros Hin Hl. by apply elem_of_deeds. Qed.

(** X9: the engine is run only on what the filter selected from the files
    of an answered query that has a commit node, never on an empty list,
    always with the same options; whether the files exist plays no part. *)
Theorem engine_runs_on_the_filtered_paths (w : World) (opts : engine_opts)
    (files : list jsstring) (r : result lint_report) :
  EngineRun opts files r ∈ (main w).2 →
  opts = eslint_opts ∧ files ≠ []
  ∧ r = executeOnFiles w eslint_opts files
  ∧ ∃ token repo pr,
      repo_token w = Some token ∧ context_repo w = Some repo
      ∧ graphql w token (query_vars w repo) = resolved (Some pr)
      ∧ commits_nodes pr ≠ []
      ∧ files = filesToLint (files_nodes pr).
Proof.
  intros Hin. apply elem_of_main_deeds in Hin; [|done]. revert Hin.
  leaves w; deeds_steps; rewrite ?elem_of_cons, elem_of_nil;
    intros Hin; repeat destruct Hin as [Hin|Hin]; try done.
  all: injection Hin as -> -> ->.
  all: split; [done|]; split; [done|]; split; [done|].
  all: exists token0, repo0, pr0; rewrite Hcom; by repeat split.
Qed.

Lemma engine_runs_on_the_filtered_paths_witness :
  ∃ pr, graphql world_one_error (js "t0ken")
          (query_vars world_one_error (js "octo", js "repo"))
        = resolved (Some pr)
        ∧ [js "a.js"; js "c.ts"] = filesToLint (files_nodes pr).
Proof.
  destruct (engine_runs_on_the_filtered_paths world_one_error eslint_opts
              [js "a.js"; js "c.ts"]
              (sample_report (js "/github/workspace/a.js") [2] 1 0))
    as (_ & _ & _ & token & repo & pr & Htok & Hrepo & Hq & _ & Hf).
  - vm_compute. do 9 apply list_elem_of_further. apply list_elem_of_here.
  - injection Htok as <-. injection Hrepo as <-. by exists pr.
Defined.

(** Two facts about the same reading of the world agree. *)
Ltac same_world :=
  repeat match goal with
    | H1 : ?x = _, H2 : ?x = _ |- _ =>
        first [constr_eq H1 H2; fail 1 | rewrite H1 in H2; simplify_eq]
    | H : _ ∨ _ |- _ => destruct H
    | H : ∃ _, _ |- _ => destruct H
    | H : _ ∧ _ |- _ => destruct H
    | H : is_Some None |- _ => by destruct H
    end;
  simplify_eq.



(** X11: a query answered with no pull request, or with a pull request
    that has no commit node, fails the check run: nothing is linted, even
    when lintable files are listed, one completing update follows the query
    and the process ends with status 1. *)
Theorem malformed_reply_fails_the_check (w : World) (resp : response)
    (id : option Z) (token : jsstring) (repo : jsstring * jsstring)
    (q : option pull_request) :
  request w 0 (check_runs_url w) (create_opts w (prelude w)) = resolved resp →
  data resp = Some id →
  repo_token w = Some token → context_repo w = Some repo →
  graphql w token (query_vars w repo) = resolved q →
  q = None ∨ (∃ pr, q = Some pr ∧ commits_nodes pr = []) →
  actions (main w).2 = [a_creation; a_query; an_update]
  ∧ exit_status (main w).1 = 1.
Proof.
  intros H1 H2 H3 H4 H5 H6. unfold actions.
  leaves w; same_world; try congruence; by deeds_steps.
Qed.

Lemma malformed_reply_fails_the_check_witness :
  exit_status
    (main (sample_world
             (resolved (Some {| files_nodes := [ {| path := js "a.js" |} ];
                                commits_nodes := [] |}))
             (sample_report (js "/github/workspace/a.js") [] 0 0))).1 = 1.
Proof.
  exact (proj2 (malformed_reply_fails_the_check
                  (sample_world
                     (resolved
                        (Some {| files_nodes := [ {| path := js "a.js" |} ];
                                 commits_nodes := [] |}))
                     (sample_report (js "/github/workspace/a.js") [] 0 0))
                  {| data := Some (Some 42) |} (Some 42) (js "t0ken")
                  (js "octo", js "repo")
                  (Some {| files_nodes := [ {| path := js "a.js" |} ];
                           commits_nodes := [] |})
                  eq_refl eq_refl eq_refl eq_refl eq_refl
                  (or_intror (ex_intro _ _ (conj eq_refl eq_refl))))).
Defined.

(** X12: without the [repo-token] input, or without a repository in the
    context, the check run is opened and then completed as failed without
    any query: the process ends with status 1. *)
Theorem missing_token_fails_the_check_without_query (w : World)
    (resp : response) (id : option Z) :
  request w 0 (check_runs_url w) (create_opts w (prelude w)) = resolved resp →
  data resp = Some id →
  repo_token w = None ∨ context_repo w = None →
  actions (main w).2 = [a_creation; an_update]
  ∧ exit_status (main w).1 = 1.
Proof.
  intros H1 H2 H3. unfold actions.
  leaves w; same_world; try congruence; by deeds_steps.
Qed.

Lemma missing_token_fails_the_check_without_query_witness :
  actions (main world_without_token).2 = [a_creation; an_update].
Proof.
  exact (proj1 (missing_token_fails_the_check_without_query
                  world_without_token {| data := Some (Some 42) |} (Some 42)
                  eq_refl eq_refl (or_introl eq_refl))).
Defined.

Lemma requests_of_deeds (t : list event) :
  requests_of (deeds t) = requests_of t.
Proof.
  unfold requests_of, deeds.
  induction t as [|[] t IH]; cbn; by rewrite ?IH.
Qed.

(** X13: when the completing update that carries the report is rejected,
    the run sends a second update to the same check run, with conclusion
    [failure] and no output, as its last request, and the process ends with
    status 1 whatever the lint conclusion was. *)
Theorem rejected_report_is_followed_by_a_failure_update (w : World)
    (url : jsstring) (opts : request_opts) (e : js_error) :
  HttpRequest url opts (rejected e) ∈ (main w).2 →
  method opts = PATCH → is_Some (body_output (body opts)) →
  exit_status (main w).1 = 1
  ∧ actions (main w).2
    = [a_creation; a_query; an_engine_run; an_update; an_update]
  ∧ ∃ t, last (requests_of (main w).2)
         = Some (url, update_opts w (js "failure") None t).
Proof.
  intros Hin Hm Ho. apply elem_of_main_deeds in Hin; [|done].
  rewrite <- requests_of_deeds. unfold actions. revert Hin.
  leaves w; deeds_steps; rewrite ?elem_of_cons, elem_of_nil;
    intros Hin; repeat destruct Hin as [Hin|Hin]; try done;
    injection Hin as -> -> Hrej; try done;
    try (by destruct Ho).
  split; [done|]. split; [done|]. by eexists.
Qed.

Lemma rejected_report_is_followed_by_a_failure_update_witness :
  exit_status
    (main (world_with_platform
             (fun n => if (n =? 1)%nat then rejected (Error "HTTP 422")
                       else resolved {| data := Some (Some 42) |})
             (fun _ => true) (sample_pr [js "a.js"])
             (sample_report (js "/github/workspace/a.js") [1] 0 1))).1 = 1.
Proof.
  destruct (rejected_report_is_followed_by_a_failure_update
              (world_with_platform
                 (fun n => if (n =? 1)%nat then rejected (Error "HTTP 422")
                           else resolved {| data := Some (Some 42) |})
                 (fun _ => true) (sample_pr [js "a.js"])
                 (sample_report (js "/github/workspace/a.js") [1] 0 1))
              (js "https://api.github.com/repos/octo/repo/check-runs/42")
              (update_opts
                 (world_with_platform
                    (fun n => if (n =? 1)%nat then rejected (Error "HTTP 422")
                              else resolved {| data := Some (Some 42) |})
                    (fun _ => true) (sample_pr [js "a.js"])
                    (sample_report (js "/github/workspace/a.js") [1] 0 1))
                 (js "success")
                 (Some (output (report_of
                          {| results :=
                               [ {| filePath := js "/github/workspace/a.js";
                                    messages := sample_message <$> [1] |} ];
                             errorCount := 0; warningCount := 1 |}
                          [annotate (js "a.js") (sample_message 1)])))
                 (replicate 13 created))
              (Error "HTTP 422")) as (H & _ & _).
  - vm_compute. do 13 apply list_elem_of_further. apply list_elem_of_here.
  - reflexivity.
  - by eexists.
  - exact H.
Defined.

Lemma reported_in_deeds (t : list event) (c : jsstring) :
  (∃ e, e ∈ t ∧ reported e = Some c) ↔ c ∈ omap reported (deeds t).
Proof.
  rewrite list_elem_of_omap. split; intros (e & He & Hc); exists e.
  - split; [|done]. apply elem_of_deeds. split; [done|]. by destruct e.
  - split; [|done]. by apply elem_of_deeds in He as [He _].
Qed.

(** X14: the process ends with status 78 exactly when a completing update
    with a report and the conclusion [failure] got through, and with status
    0 exactly when one with the conclusion [success] got through or the run
    did nothing but create the check run and make the query. *)
Theorem exit_status_tells_what_was_reported (w : World) :
  (exit_status (main w).1 = 78
   ↔ ∃ e, e ∈ (main w).2 ∧ reported e = Some (js "failure"))
  ∧ (exit_status (main w).1 = 0
     ↔ actions (main w).2 = [a_creation; a_query]
       ∨ ∃ e, e ∈ (main w).2 ∧ reported e = Some (js "success")).
Proof.
  rewrite !reported_in_deeds. unfold actions.
  assert (∀ c : jsstring, c ∈ @nil jsstring ↔ False) as Hnil
    by (intros c; apply elem_of_nil).
  leaves w; deeds_steps;
    cbn [omap list_omap reported method update_opts create_opts body
         body_output body_conclusion kind_of fmap list_fmap];
    try (apply eslint_shape in Hl as (ev & _ & _ & Hc));
    try (destruct Hc as [Hc|Hc]; rewrite Hc;
         [rewrite bool_decide_eq_true_2 by done
         |rewrite bool_decide_eq_false_2 by done]);
    cbn [fst exit_status failed_update];
    rewrite ?Hnil, ?list_elem_of_singleton;
    (split; split; intros H; try done; try (by destruct H));
    by (left + right).
Qed.

(** ** The rest of the module *)

(** X15: the tag [gql] returns the literal parts of its template put end
    to end, hence the text itself for a template without a placeholder. *)
Theorem gql_concatenates (parts : list jsstring) (text : jsstring) :
  gql parts = mjoin parts ∧ gql [text] = text.
Proof.
  split; [|done]. unfold gql.
  induction parts as [|p rest IH]; [done|].
  rewrite mjoin_cons, <- IH. destruct rest as [|q rest]; [|done].
  by rewrite app_nil_r.
Qed.

(** X16: [getDirectories] returns the names of the entries that are
    directories, in the order of the listing and as often as they are
    listed, and nothing else; it throws what the listing throws. *)
Theorem getDirectories_lists_the_directories
    (readdir : jsstring → result (list dirent)) (source : jsstring) :
  match readdir source with
  | resolved entries =>
      ∃ names,
        getDirectories readdir source = resolved names
        ∧ names `sublist_of` (dirent_name <$> entries)
        ∧ (∀ n, n ∈ names
                ↔ ∃ d, d ∈ entries ∧ isDirectory d = true ∧ dirent_name d = n)
        ∧ length names
          = length (List.filter isDirectory entries)
  | rejected e => getDirectories readdir source = rejected e
  end.
Proof.
  unfold getDirectories. destruct (readdir source) as [entries|e]; [|done].
  eexists. split; [done|]. split; [|split].
  - induction entries as [|d entries IH]; [constructor|].
    cbn [List.filter]. destruct (isDirectory d); by constructor.
  - intros n. rewrite list_elem_of_In, List.in_map_iff.
    split; intros (d & Hd & Hin).
    + apply List.filter_In in Hin as [Hin Hdir].
      exists d. by rewrite list_elem_of_In.
    + destruct Hin as [Hdir <-]. exists d. split; [done|].
      apply List.filter_In. by rewrite <- list_elem_of_In.
  - by rewrite List.length_map.
Qed.

(** X17: when [CUSTOM_DIRECTORY] is set and not empty and the change of
    directory fails, or the listing of the new directory fails, the script
    ends with that exception before [run] is called: no request is sent, so
    no check run is created, and the process ends with status 1. *)
Theorem failed_directory_change_prevents_the_run (s : Startup) (w : World)
    (dir : jsstring) (e : js_error) :
  CUSTOM_DIRECTORY s = Some dir → dir ≠ [] →
  process_chdir s (path_join s (process_cwd s) dir) = rejected e
  ∨ (∃ d, process_chdir s (path_join s (process_cwd s) dir) = resolved d
          ∧ readdirSync s d = rejected e) →
  (script s w).2 = (Throw e, [])
  ∧ requests_of (script s w).2.2 = []
  ∧ exit_status (script s w).2.1 = 1
  ∧ (script s w).1
    = [ LoadInfo (js "New directory: " ++ path_join s (process_cwd s) dir);
        Chdir (path_join s (process_cwd s) dir)
          (process_chdir s (path_join s (process_cwd s) dir)) ].
Proof.
  intros Hc Hne Hfail. unfold script, load. rewrite Hc.
  destruct dir as [|c d]; [done|]. cbv zeta.
  destruct Hfail as [Hch|(d' & Hch & Hls)]; rewrite Hch; [done|].
  unfold getDirectories. by rewrite Hls.
Qed.

Lemma failed_directory_change_prevents_the_run_witness :
  requests_of
    (script (sample_startup (Some (js "packages/app"))
               (rejected (Error "ENOENT: no such file or directory")))
       world_one_error).2.2 = [].
Proof.
  destruct (failed_directory_change_prevents_the_run
              (sample_startup (Some (js "packages/app"))
                 (rejected (Error "ENOENT: no such file or directory")))
              world_one_error (js "packages/app")
              (Error "ENOENT: no such file or directory")
              eq_refl ltac:(discriminate) (or_introl eq_refl))
    as (_ & H & _).
  exact H.
Defined.

(** X18: an empty [CUSTOM_DIRECTORY] is treated like a missing one: nothing
    is logged, the directory is not changed, and [run] starts in the
    directory the process was started in; a non-empty one makes [run] start
    in the directory the process has after the change, once that directory
    and the names of its subdirectories have been logged. *)
Theorem run_starts_in_the_custom_directory (s : Startup) (w : World) :
  (CUSTOM_DIRECTORY s = None ∨ CUSTOM_DIRECTORY s = Some [] →
   script s w = ([], main (with_cwd (process_cwd s) w)))
  ∧ (∀ dir d entries,
       CUSTOM_DIRECTORY s = Some dir → dir ≠ [] →
       process_chdir s (path_join s (process_cwd s) dir) = resolved d →
       readdirSync s d = resolved entries →
       script s w
       = ([ LoadInfo (js "New directory: "
                      ++ path_join s (process_cwd s) dir);
            Chdir (path_join s (process_cwd s) dir) (resolved d);
            LoadInfoNames
              (dirent_name <$> List.filter isDirectory entries) ],
          main (with_cwd d w))).
Proof.
  split.
  - intros [Hc|Hc]; unfold script, load; by rewrite Hc.
  - intros dir d entries Hc Hne Hch Hls. unfold script, load. rewrite Hc.
    destruct dir as [|c dir]; [done|]. cbv zeta. rewrite Hch.
    unfold getDirectories. by rewrite Hls.
Qed.

Lemma run_starts_in_the_custom_directory_witness :
  (script (sample_startup (Some (js "app")) (resolved (js "/github/workspace/app")))
     world_nothing_to_lint).1
  = [ LoadInfo (js "New directory: /github/workspace/app");
      Chdir (js "/github/workspace/app") (resolved (js "/github/workspace/app"));
      LoadInfoNames [js "src"; js "test"] ].
Proof.
  rewrite (proj2 (run_starts_in_the_custom_directory
                    (sample_startup (Some (js "app"))
                       (resolved (js "/github/workspace/app")))
                    world_nothing_to_lint)
             (js "app") (js "/github/workspace/app")
             [ {| dirent_name := js "src"; isDirectory := true |};
               {| dirent_name := js "package.json"; isDirectory := false |};
               {| dirent_name := js "test"; isDirectory := true |} ]
             eq_refl ltac:(discriminate) eq_refl eq_refl).
  reflexivity.
Defined.
